(** * Grayscale tools: a shallow embedding and its properties

    The repository holds three near-duplicate Python programs,
    [grayscale_tool.py], [grayscale_adjust_tool.py] and
    [grayscale_adjust_preview_tool.py].  This development embeds their
    non-GUI functions and proves the properties of the specification.

    Conventions of the embedding.
    - A Python [str] is a [string] (a byte string; non-ASCII text is its
      UTF-8 encoding, whose byte order is the code point order).
    - A Python [float] is a real number of [R]: arithmetic is exact, the
      rounding of IEEE operations is not modelled, and there is no
      infinity and no NaN.  A float result can therefore differ from the
      modelled one by a rounding error; where that error can move an
      integer result (an entry of the gamma table, a side of the preview)
      the properties below bound the result instead of fixing it.
    - Exceptions are values of [exn]; fallible code lives in [outcome].
    - The imaging library (Pillow) and the file system are interfaces
      ([Pillow], [Host]); the programs are written against them. *)

From Stdlib Require Import Reals Lra Lia ZArith Ascii String.
From stdpp Require Import base option gmap sets list strings pretty sorting.

Open Scope string_scope.

(** ** Python strings *)

Module Py.

(** [c.lower()] on one character, for the ASCII letters. *)
Definition lower_char (c : ascii) : ascii :=
  let n := nat_of_ascii c in
  if (65 <=? n)%nat && (n <=? 90)%nat then ascii_of_nat (n + 32) else c.

(** [s.lower()]. *)
Fixpoint lower (s : string) : string :=
  match s with
  | EmptyString => EmptyString
  | String c s' => String (lower_char c) (lower s')
  end.

(** [s[:n]] for [0 <= n]. *)
Fixpoint take (n : nat) (s : string) : string :=
  match n, s with
  | S k, String c s' => String c (take k s')
  | _, _ => EmptyString
  end.

(** [s[n:]] for [0 <= n]. *)
Fixpoint drop (n : nat) (s : string) : string :=
  match n, s with
  | S k, String _ s' => drop k s'
  | _, _ => s
  end.

(** [s[lo:hi]] for [0 <= lo]. *)
Definition slice (s : string) (lo hi : Z) : string :=
  take (Z.to_nat (hi - lo)) (drop (Z.to_nat lo) s).

(** The index of the last [c] in [s], the first character of [s] having
    index [i]; [-1] when [c] does not occur. *)
Fixpoint rfind_from (c : ascii) (s : string) (i : Z) : Z :=
  match s with
  | EmptyString => (-1)%Z
  | String a s' =>
      let r := rfind_from c s' (i + 1) in
      if (0 <=? r)%Z then r
      else if bool_decide (a = c) then i else (-1)%Z
  end.

(** [s.rfind(c)]. *)
Definition rfind (s : string) (c : ascii) : Z := rfind_from c s 0.

(** [s.startswith(c)] and [s.endswith(c)] for a character in a list. *)
Definition starts_with_any (cs : list ascii) (s : string) : bool :=
  match s with
  | EmptyString => false
  | String a _ => bool_decide (a ∈ cs)
  end.

Fixpoint ends_with_any (cs : list ascii) (s : string) : bool :=
  match s with
  | EmptyString => false
  | String a EmptyString => bool_decide (a ∈ cs)
  | String _ s' => ends_with_any cs s'
  end.

End Py.

(** ** [os.path] *)

(** The two flavours of [os.path]: [posixpath] and [ntpath]. *)
Inductive flavour := Posix | Nt.

Module OsPath.

Definition sep (fl : flavour) : ascii :=
  match fl with Posix => "/" | Nt => "\" end%char.

Definition altsep (fl : flavour) : option ascii :=
  match fl with Posix => None | Nt => Some "/"%char end.

Definition extsep : ascii := "."%char.

Definition seps (fl : flavour) : list ascii :=
  sep fl :: match altsep fl with Some a => [a] | None => [] end.

(** The loop of [genericpath._splitext] that skips leading dots:
<<
    while filenameIndex < dotIndex:
        if p[filenameIndex:filenameIndex+1] != extsep:
            return p[:dotIndex], p[dotIndex:]
        filenameIndex += 1
>>
    [steps] is [dotIndex - filenameIndex]; the result is [true] when the
    loop returns from its body. *)
Fixpoint splitext_scan (p : string) (filenameIndex : Z) (steps : nat) : bool :=
  match steps with
  | O => false
  | S k =>
      if bool_decide (Py.slice p filenameIndex (filenameIndex + 1)
                      ≠ String extsep EmptyString)
      then true
      else splitext_scan p (filenameIndex + 1) k
  end.

(** [genericpath._splitext(p, sep, altsep, extsep)]. *)
Definition _splitext (p : string) (sep : ascii) (altsep : option ascii)
    : string * string :=
  let sepIndex := Py.rfind p sep in
  let sepIndex :=
    match altsep with
    | Some a => Z.max sepIndex (Py.rfind p a)
    | None => sepIndex
    end in
  let dotIndex := Py.rfind p extsep in
  if (sepIndex <? dotIndex)%Z
     && splitext_scan p (sepIndex + 1) (Z.to_nat (dotIndex - (sepIndex + 1)))
  then (Py.take (Z.to_nat dotIndex) p, Py.drop (Z.to_nat dotIndex) p)
  else (p, EmptyString).

(** [os.path.splitext(p)]. *)
Definition splitext (fl : flavour) (p : string) : string * string :=
  _splitext p (sep fl) (altsep fl).

(** [os.path.basename(p)]: what follows the last separator.  This is
    [posixpath.basename] exactly.  [ntpath.basename] first splits off a
    drive or UNC root ([C:], [\\server\share]), which is not modelled:
    the [Nt] flavour is right for paths whose last component holds no
    colon and that are not a bare UNC root, such as the absolute,
    normalised paths of the collected targets. *)
Definition basename (fl : flavour) (p : string) : string :=
  let i := Py.rfind p (sep fl) in
  let i :=
    match altsep fl with
    | Some a => Z.max i (Py.rfind p a)
    | None => i
    end in
  Py.drop (Z.to_nat (i + 1)) p.

(** [os.path.join(a, b)] as [posixpath.join] does it: a rooted [b]
    replaces [a], otherwise [b] is appended after one separator.  This
    is [posixpath.join] exactly.  [ntpath.join] differs when [b] has a
    drive (a colon in a file name) or when [a] is a bare drive such as
    [C:]; drives are not modelled, so the [Nt] flavour is right only for
    a [b] without colon and an [a] that is not a bare drive.  The
    properties that name the components of a joined path are stated for
    the [Posix] flavour. *)
Definition join (fl : flavour) (a b : string) : string :=
  if Py.starts_with_any (seps fl) b then b
  else if bool_decide (a = EmptyString) || Py.ends_with_any (seps fl) a
       then a ++ b
       else a ++ String (sep fl) EmptyString ++ b.

End OsPath.

(** ** The utilities shared by the three programs *)

(** [IMAGE_EXTS]. *)
Definition IMAGE_EXTS : list string :=
  [".jpg"; ".jpeg"; ".png"; ".tif"; ".tiff"; ".bmp"; ".gif"].

(** [is_image_file(path)]:
    [os.path.splitext(path)[1].lower() in IMAGE_EXTS]. *)
Definition is_image_file (fl : flavour) (path : string) : bool :=
  bool_decide (Py.lower (OsPath.splitext fl path).2 ∈ IMAGE_EXTS).

(** ** Python exceptions and floats *)

(** The exceptions the programs tell apart: [UnidentifiedImageError] has
    an [except] clause of its own, every other one is an [Exception].
    The argument is [str(e)]. *)
Inductive exn :=
  | UnidentifiedImageError (msg : string)
  | ZeroDivisionError (msg : string)
  | TypeError (msg : string)
  | OtherException (msg : string).

Definition exn_str (e : exn) : string :=
  match e with
  | UnidentifiedImageError m | ZeroDivisionError m | TypeError m
  | OtherException m => m
  end.

(** A computation that returns or raises. *)
Inductive outcome (A : Type) :=
  | Return (a : A)
  | Raise (e : exn).
Arguments Return {A} a.
Arguments Raise {A} e.

#[global] Instance outcome_ret : MRet outcome := @Return.
#[global] Instance outcome_bind : MBind outcome := λ A B f m,
  match m with
  | Return a => f a
  | Raise e => Raise e
  end.

Module PyFloat.

Open Scope R_scope.

(** [x / y] on floats. *)
Definition truediv (x y : R) : outcome R :=
  if Req_dec_T y 0 then Raise (ZeroDivisionError "float division by zero")
  else Return (x / y).

(** [max(a, b)]: [b] when [b > a], else [a]. *)
Definition max (a b : R) : R := if Rlt_dec a b then b else a.

(** [x ** y] on floats.  A positive base gives [exp (y * ln x)]; base
    zero gives [0.0], [1.0] or [ZeroDivisionError] by the sign of [y].
    A negative base with a fractional exponent gives a complex number,
    which [round] then rejects; the programs only use bases [i / 255.0],
    so an integral exponent on a negative base is not told apart. *)
Definition pow (x y : R) : outcome R :=
  if Rlt_dec 0 x then Return (Rpower x y)
  else if Req_dec_T x 0 then
    if Rlt_dec 0 y then Return 0
    else if Req_dec_T y 0 then Return 1
    else Raise (ZeroDivisionError "0.0 cannot be raised to a negative power")
  else Raise (TypeError "type complex doesn't define __round__ method").

(** [int(round(x))]: the nearest integer, a tie going to the even one. *)
Definition round (x : R) : Z :=
  let f := Zfloor x in
  let d := x - IZR f in
  if Rlt_dec d (1 / 2) then f
  else if Rlt_dec (1 / 2) d then (f + 1)%Z
  else if Z.even f then f else (f + 1)%Z.

End PyFloat.

(** ** Images and the imaging library *)

(** A decoded image: its mode ("L", "LA", "RGB", "P", ...), its size,
    the [is_animated] attribute when the image class has one, and the
    samples. *)
Record Image := {
  im_mode : string;
  im_size : Z * Z;
  im_is_animated : option bool;
  im_data : list Z;
}.

(** [getattr(im, "is_animated", False)]. *)
Definition getattr_is_animated (im : Image) : bool :=
  default false (im_is_animated im).

(** The operations of Pillow the programs call.  They are total here: on
    a decoded image they do not raise. *)
Class Pillow := {
  (** [ImageOps.autocontrast(im, cutoff=cutoff)] *)
  ImageOps_autocontrast : Image → Z → Image;
  (** [ImageEnhance.Brightness(im).enhance(b)] *)
  Brightness_enhance : Image → R → Image;
  (** [ImageEnhance.Contrast(im).enhance(c)] *)
  Contrast_enhance : Image → R → Image;
  (** [im.point(lut, mode="L")] *)
  Image_point : Image → list Z → Image;
  (** [im.convert("RGB")] *)
  Image_convert_RGB : Image → Image;
  (** [ImageOps.grayscale(im)] *)
  ImageOps_grayscale : Image → Image;
}.

(** The adjustment configuration, a [dict] read with [cfg.get(key,
    default)]: a key may be absent. *)
Record Config := {
  cfg_autocontrast : option bool;
  cfg_cutoff : option Z;
  cfg_brightness : option R;
  cfg_contrast : option R;
  cfg_gamma : option R;
}.

(** The gamma table
    [[int(round((i / 255.0) ** inv * 255.0)) for i in range(256)]], with
    the division, the power and the product taken exactly.  Where the
    exact value is next to the middle of two integers the float table
    can hold the other one of the two. *)
Definition gamma_lut (inv : R) : outcome (list Z) :=
  mapM (λ i : Z,
          x ← PyFloat.truediv (IZR i) 255;
          y ← PyFloat.pow x inv;
          mret (PyFloat.round (y * 255)%R))
       (seqZ 0 256).

(** ** The host: file system and image files *)

(** A keyword argument value of [Image.save]. *)
Inductive pyval :=
  | PyInt (z : Z)
  | PyBool (b : bool).

(** What the programs read from and write to.  [World] is the state of
    the file system; [existing w] holds the paths [p] for which
    [os.path.exists(p)] is true (finitely many).  [Image_open] is
    [Image.open(src)] and [Image_save] is [im.save(dst, **save_kw)];
    both can raise, and saving changes the world. *)
Class Host := {
  World : Type;
  os_flavour : flavour;
  (** [os.path.expanduser("~")] *)
  home : string;
  abspath : string → string;
  normpath : string → string;
  existing : World → gset string;
  isdir : World → string → bool;
  isfile : World → string → bool;
  (** [os.walk(top)]: the triples [(root, dirs, files)] *)
  walk : World → string → list (string * list string * list string);
  Image_open : World → string → outcome Image;
  Image_save : Image → string → list (string * pyval) → World → outcome unit * World;
}.

(** [JPEG_SAVE_KW]. *)
Definition JPEG_SAVE_KW : list (string * pyval) :=
  [("quality", PyInt 95); ("subsampling", PyInt 0);
   ("optimize", PyBool true); ("progressive", PyBool false)].

(** A printed line of the batch.  [LineOK i total src dst] is
    [[i/total] OK  : src -> dst], [LineSKIP i total src info] is
    [[i/total] SKIP: src (info)], [LineRule] the row of dashes,
    [LineOutDir d] the output directory line and [LineDone ok skip total]
    the final count line (its duration is real time and left out). *)
Inductive Line :=
  | LineOK (i total : nat) (src dst : string)
  | LineSKIP (i total : nat) (src info : string)
  | LineRule
  | LineOutDir (dir : string)
  | LineDone (ok skip total : nat).

(** How a program run ends: the GUI was launched ([launch_gui], an
    interactive loop that is not modelled further), or the batch ran,
    printed [out], left the world [w] and returned [code]. *)
Inductive Run `{Host} :=
  | RunGui
  | RunBatch (code : Z) (out : list Line) (w : World).

Section Shared.
Context `{Host}.

(** [norm(path)]. *)
Definition norm (path : string) : string := normpath (abspath path).

(** The accumulator of [collect_targets]: the list [paths] and the set
    [seen]. *)
Definition collect_add (fp : string) (acc : list string * gset string)
    : list string * gset string :=
  ((acc.1 ++ [fp])%list, {[fp]} ∪ acc.2).

(** The body of [for fn in files] under [os.walk]. *)
Definition collect_walk_file (root : string)
    (acc : list string * gset string) (fn : string)
    : list string * gset string :=
  let fp := norm (OsPath.join os_flavour root fn) in
  if is_image_file os_flavour fp && bool_decide (fp ∉ acc.2)
  then collect_add fp acc
  else acc.

(** The body of [for root, _dirs, files in os.walk(p)]. *)
Definition collect_walk_entry (acc : list string * gset string)
    (entry : string * list string * list string)
    : list string * gset string :=
  let '(root, _dirs, files) := entry in
  foldl (collect_walk_file root) acc files.

(** The body of [for p in inputs]. *)
Definition collect_input (w : World) (acc : list string * gset string)
    (p : string) : list string * gset string :=
  if bool_decide (p = "") then acc
  else
    let p := norm p in
    if isdir w p then foldl collect_walk_entry acc (walk w p)
    else if isfile w p && is_image_file os_flavour p then
      if bool_decide (p ∉ acc.2) then collect_add p acc else acc
    else acc.

(** [collect_targets(inputs)]; [paths.sort()] orders strings with [<=]. *)
Definition collect_targets (w : World) (inputs : list string) : list string :=
  let paths := (foldl (collect_input w) ([], ∅) inputs).1 in
  merge_sort String.le paths.

(** The loop of [safe_out_path]:
<<
    while os.path.exists(dst):
        dst = os.path.join(OUTPUT_DIR, f"{name}{suffix}-{n}{ext}")
        n += 1
    return dst
>>
    [None] when the fuel runs out before the loop ends. *)
Fixpoint safe_out_loop (fuel : nat) (w : World) (out_dir name suffix ext : string)
    (dst : string) (n : nat) : option string :=
  match fuel with
  | O => None
  | S fuel' =>
      if bool_decide (dst ∈ existing w) then
        let dst := OsPath.join os_flavour out_dir
                     (name ++ suffix ++ "-" ++ pretty n ++ ext) in
        safe_out_loop fuel' w out_dir name suffix ext dst (n + 1)
      else Some dst
  end.

(** [safe_out_path(filename, suffix)] with [OUTPUT_DIR = out_dir]. *)
Definition safe_out_path_in (fuel : nat) (w : World) (out_dir : string)
    (filename suffix : string) : option string :=
  let '(name, ext) := OsPath.splitext os_flavour filename in
  let dst := OsPath.join os_flavour out_dir (name ++ suffix ++ ext) in
  safe_out_loop fuel w out_dir name suffix ext dst 2.

(** The [except] clauses of the three conversion functions. *)
Definition handle (r : outcome (bool * string)) : bool * string :=
  match r with
  | Return x => x
  | Raise (UnidentifiedImageError _) => (false, "不正な画像/未対応の形式")
  | Raise e => (false, "失敗: " ++ exn_str e)
  end.

(** [save_kw]: [JPEG_SAVE_KW] for a [.jpg] or [.jpeg] destination. *)
Definition save_kw_for (dst : string) : list (string * pyval) :=
  let ext := Py.lower (OsPath.splitext os_flavour dst).2 in
  if bool_decide (ext ∈ [".jpg"; ".jpeg"]) then JPEG_SAVE_KW else [].

(** The loop of [process_targets]:
<<
    for i, p in enumerate(targets, 1):
        res, info = convert(p)
        if res: ok += 1; print(...)
        else:   skip += 1; print(...)
>>
    [convert] is the program's conversion function. *)
Fixpoint process_loop
    (convert : string → World → option ((bool * string) * World))
    (total : nat) (targets : list string) (i ok skip : nat)
    (out : list Line) (w : World) : option (nat * nat * list Line * World) :=
  match targets with
  | [] => Some (ok, skip, out, w)
  | p :: rest =>
      match convert p w with
      | None => None
      | Some ((res, info), w') =>
          if res : bool then
            process_loop convert total rest (i + 1) (ok + 1) skip
              (out ++ [LineOK i total (OsPath.basename os_flavour p)
                         (OsPath.basename os_flavour info)])%list w'
          else
            process_loop convert total rest (i + 1) ok (skip + 1)
              (out ++ [LineSKIP i total (OsPath.basename os_flavour p) info])%list w'
      end
  end.

End Shared.

(** ** [grayscale_tool.py] *)

Module GrayscaleTool.
Section Tool.
Context `{Pillow} `{Host}.

(** [get_desktop_output_dir()], the value of [OUTPUT_DIR]. *)
Definition OUTPUT_DIR : string :=
  let desktop := OsPath.join os_flavour home "Desktop" in
  OsPath.join os_flavour desktop "grayscale_output".

Definition safe_out_path (fuel : nat) (w : World) (filename : string)
    : option string :=
  safe_out_path_in fuel w OUTPUT_DIR filename "_gray".

(** The [try] block of [convert_to_gray]. *)
Definition convert_to_gray_body (fuel : nat) (src : string) (w : World)
    : option (outcome (bool * string) * World) :=
  match Image_open w src with
  | Raise e => Some (Raise e, w)
  | Return im =>
      if getattr_is_animated im then
        Some (Return (false, "アニメGIFのためスキップ"), w)
      else
        let im :=
          if bool_decide (im_mode im ∉ ["L"; "LA"]) then Image_convert_RGB im
          else im in
        let gray := ImageOps_grayscale im in
        let base := OsPath.basename os_flavour src in
        match safe_out_path fuel w base with
        | None => None
        | Some dst =>
            match Image_save gray dst (save_kw_for dst) w with
            | (Raise e, w') => Some (Raise e, w')
            | (Return _, w') => Some (Return (true, dst), w')
            end
        end
  end.

Definition convert_to_gray (fuel : nat) (src : string) (w : World)
    : option ((bool * string) * World) :=
  match convert_to_gray_body fuel src w with
  | None => None
  | Some (r, w') => Some (handle r, w')
  end.

Definition process_targets (fuel : nat) (targets : list string) (w : World)
    : option Run :=
  match process_loop (convert_to_gray fuel) (length targets) targets 1 0 0 [] w with
  | None => None
  | Some (ok, skip, out, w') =>
      Some (RunBatch 0
              (out ++ [LineRule; LineOutDir OUTPUT_DIR;
                       LineDone ok skip (length targets)])%list w')
  end.

Definition run_cli (fuel : nat) (argv : list string) (w : World) : option Run :=
  let targets := collect_targets w argv in
  if bool_decide (targets = []) then Some RunGui
  else process_targets fuel targets w.

End Tool.
End GrayscaleTool.

(** ** [grayscale_adjust_tool.py] *)

Module AdjustTool.
Section Tool.
Context `{Pillow} `{Host}.

(** [get_output_dir()], the value of [OUTPUT_DIR]. *)
Definition OUTPUT_DIR : string :=
  let desktop := OsPath.join os_flavour home "Desktop" in
  OsPath.join os_flavour desktop "outputfolder".

Definition safe_out_path (fuel : nat) (w : World) (filename : string)
    : option string :=
  safe_out_path_in fuel w OUTPUT_DIR filename "_adj".

Definition apply_adjustments (gray : Image) (cfg : Config) : outcome Image :=
  let im := gray in
  let im :=
    if default false (cfg_autocontrast cfg) then
      let cutoff := default 1%Z (cfg_cutoff cfg) in
      ImageOps_autocontrast im cutoff
    else im in
  let b := default 1%R (cfg_brightness cfg) in
  let im :=
    if Rlt_dec 1e-6 (Rabs (b - 1.0)) then Brightness_enhance im b else im in
  let c := default 1%R (cfg_contrast cfg) in
  let im :=
    if Rlt_dec 1e-6 (Rabs (c - 1.0)) then Contrast_enhance im c else im in
  let g := default 1%R (cfg_gamma cfg) in
  if Rlt_dec 1e-6 (Rabs (g - 1.0)) then
    inv ← PyFloat.truediv 1.0 (PyFloat.max g 1e-6);
    lut ← gamma_lut inv;
    mret (Image_point im lut)
  else mret im.

(** The [try] block of [convert_one]. *)
Definition convert_one_body (fuel : nat) (src : string) (cfg : Config)
    (w : World) : option (outcome (bool * string) * World) :=
  match Image_open w src with
  | Raise e => Some (Raise e, w)
  | Return im =>
      if getattr_is_animated im then
        Some (Return (false, "アニメGIFのためスキップ"), w)
      else
        let im :=
          if bool_decide (im_mode im ∉ ["L"; "LA"]) then Image_convert_RGB im
          else im in
        let gray := ImageOps_grayscale im in
        match apply_adjustments gray cfg with
        | Raise e => Some (Raise e, w)
        | Return out_img =>
            let base := OsPath.basename os_flavour src in
            match safe_out_path fuel w base with
            | None => None
            | Some dst =>
                match Image_save out_img dst (save_kw_for dst) w with
                | (Raise e, w') => Some (Raise e, w')
                | (Return _, w') => Some (Return (true, dst), w')
                end
            end
        end
  end.

Definition convert_one (fuel : nat) (src : string) (cfg : Config) (w : World)
    : option ((bool * string) * World) :=
  match convert_one_body fuel src cfg w with
  | None => None
  | Some (r, w') => Some (handle r, w')
  end.

Definition default_cfg : Config :=
  {| cfg_autocontrast := Some false;
     cfg_cutoff := Some 1%Z;
     cfg_brightness := Some 1.0%R;
     cfg_contrast := Some 1.0%R;
     cfg_gamma := Some 1.0%R |}.

Definition process_targets (fuel : nat) (targets : list string) (cfg : Config)
    (w : World) : option Run :=
  match process_loop (λ p, convert_one fuel p cfg) (length targets) targets
          1 0 0 [] w with
  | None => None
  | Some (ok, skip, out, w') =>
      Some (RunBatch 0
              (out ++ [LineRule; LineOutDir OUTPUT_DIR;
                       LineDone ok skip (length targets)])%list w')
  end.

Definition run_cli (fuel : nat) (argv : list string) (w : World) : option Run :=
  let targets := collect_targets w argv in
  if bool_decide (targets = []) then Some RunGui
  else process_targets fuel targets default_cfg w.

End Tool.
End AdjustTool.

(** ** [grayscale_adjust_preview_tool.py] *)

Module PreviewTool.
Section Tool.
Context `{Pillow} `{Host}.

(** [get_output_dir()], the value of [OUTPUT_DIR]. *)
Definition OUTPUT_DIR : string :=
  let desktop := OsPath.join os_flavour home "Desktop" in
  OsPath.join os_flavour desktop "outputfolder".

Definition safe_out_path (fuel : nat) (w : World) (filename suffix : string)
    : option string :=
  safe_out_path_in fuel w OUTPUT_DIR filename suffix.

Definition to_gray_L (im : Image) : Image :=
  let im :=
    if bool_decide (im_mode im ∉ ["L"; "LA"]) then Image_convert_RGB im
    else im in
  ImageOps_grayscale im.

Definition apply_adjustments_L (gray : Image) (cfg : Config) : outcome Image :=
  let im := gray in
  let im :=
    if default false (cfg_autocontrast cfg) then
      ImageOps_autocontrast im (default 1%Z (cfg_cutoff cfg))
    else im in
  let b := default 1%R (cfg_brightness cfg) in
  let im :=
    if Rlt_dec 1e-6 (Rabs (b - 1.0)) then Brightness_enhance im b else im in
  let c := default 1%R (cfg_contrast cfg) in
  let im :=
    if Rlt_dec 1e-6 (Rabs (c - 1.0)) then Contrast_enhance im c else im in
  let g := default 1%R (cfg_gamma cfg) in
  if Rlt_dec 1e-6 (Rabs (g - 1.0)) then
    inv ← PyFloat.truediv 1.0 (PyFloat.max g 1e-6);
    lut ← gamma_lut inv;
    mret (Image_point im lut)
  else mret im.

(** The [try] block of [convert_fullres]. *)
Definition convert_fullres_body (fuel : nat) (src : string) (cfg : Config)
    (w : World) : option (outcome (bool * string) * World) :=
  match Image_open w src with
  | Raise e => Some (Raise e, w)
  | Return im =>
      if getattr_is_animated im then
        Some (Return (false, "アニメGIFのためスキップ"), w)
      else
        match apply_adjustments_L (to_gray_L im) cfg with
        | Raise e => Some (Raise e, w)
        | Return out =>
            let base := OsPath.basename os_flavour src in
            match safe_out_path fuel w base "_adj" with
            | None => None
            | Some dst =>
                match Image_save out dst (save_kw_for dst) w with
                | (Raise e, w') => Some (Raise e, w')
                | (Return _, w') => Some (Return (true, dst), w')
                end
            end
        end
  end.

Definition convert_fullres (fuel : nat) (src : string) (cfg : Config)
    (w : World) : option ((bool * string) * World) :=
  match convert_fullres_body fuel src cfg w with
  | None => None
  | Some (r, w') => Some (handle r, w')
  end.

(** [main(argv)]: [App().run()], whatever [argv] holds. *)
Definition main (argv : list string) : Run := RunGui.

End Tool.
End PreviewTool.

(** ** The statements of the specification *)

(** [x ^ y] on real numbers for a base [0 <= x] and an exponent [0 < y]. *)
Definition real_pow (x y : R) : R :=
  if Req_dec_T x 0 then 0%R else Rpower x y.

(** The table entry of the specification:
    [round((i/255)^(1/gamma) * 255)]. *)
Definition lut_entry_spec (gamma : R) (i : Z) : Z :=
  PyFloat.round (real_pow (IZR i / 255) (1 / gamma) * 255)%R.

(** A character that no other character lower-cases to. *)
Definition caseless (c : ascii) : Prop := ∀ a, Py.lower_char a = c ↔ a = c.

(** Clamping to [0, 255]. *)
Definition clip8 (v : Z) : Z := Z.max 0 (Z.min 255 v).

(** An identity configuration: autocontrast disabled, and brightness,
    contrast and gamma within [1e-6] of [1.0]. *)
Definition identity_cfg (cfg : Config) : Prop :=
  default false (cfg_autocontrast cfg) = false
  ∧ (Rabs (default 1 (cfg_brightness cfg) - 1) <= 1e-6)%R
  ∧ (Rabs (default 1 (cfg_contrast cfg) - 1) <= 1e-6)%R
  ∧ (Rabs (default 1 (cfg_gamma cfg) - 1) <= 1e-6)%R.

(** The four steps of the pipeline as the specification lists them, each
    one a no-op at its identity value. *)
Section Steps.
Context `{Pillow}.

Definition step_autocontrast (cfg : Config) (im : Image) : outcome Image :=
  if default false (cfg_autocontrast cfg)
  then Return (ImageOps_autocontrast im (default 1%Z (cfg_cutoff cfg)))
  else Return im.

Definition step_brightness (cfg : Config) (im : Image) : outcome Image :=
  let b := default 1%R (cfg_brightness cfg) in
  if Rle_dec (Rabs (b - 1)) 1e-6 then Return im
  else Return (Brightness_enhance im b).

Definition step_contrast (cfg : Config) (im : Image) : outcome Image :=
  let c := default 1%R (cfg_contrast cfg) in
  if Rle_dec (Rabs (c - 1)) 1e-6 then Return im
  else Return (Contrast_enhance im c).

Definition step_gamma (cfg : Config) (im : Image) : outcome Image :=
  let g := default 1%R (cfg_gamma cfg) in
  if Rle_dec (Rabs (g - 1)) 1e-6 then Return im
  else
    inv ← PyFloat.truediv 1 (PyFloat.max g 1e-6);
    lut ← gamma_lut inv;
    Return (Image_point im lut).

(** Running steps one after the other, each on the output of the one
    before. *)
Definition run_steps (steps : list (Image → outcome Image)) (im : Image)
    : outcome Image :=
  foldl (λ acc step, acc ≫= step) (Return im) steps.

End Steps.

(** ** A sample library and host

    A stand-in for Pillow on lists of samples and a file system held in
    a finite map, to run the embedded programs on concrete inputs.  The
    pixel arithmetic is a simplification of the library's. *)

Definition with_data (im : Image) (mode : string) (data : list Z) : Image :=
  {| im_mode := mode; im_size := im_size im;
     im_is_animated := None; im_data := data |}.

#[global] Instance SamplePillow : Pillow := {|
  ImageOps_autocontrast im cutoff :=
    let lo := foldr Z.min 255%Z (im_data im) in
    let hi := foldr Z.max 0%Z (im_data im) in
    with_data im (im_mode im)
      ((λ v, if (hi <=? lo)%Z then v else ((v - lo) * 255 / (hi - lo))%Z)
         <$> im_data im);
  Brightness_enhance im b :=
    with_data im (im_mode im)
      ((λ v, clip8 (PyFloat.round (IZR v * b)%R)) <$> im_data im);
  Contrast_enhance im c :=
    with_data im (im_mode im)
      ((λ v, clip8 (PyFloat.round (128 + (IZR v - 128) * c)%R)) <$> im_data im);
  Image_point im lut :=
    with_data im "L" ((λ v, clip8 (nth (Z.to_nat v) lut 0%Z)) <$> im_data im);
  Image_convert_RGB im := with_data im "RGB" (im_data im);
  ImageOps_grayscale im := with_data im "L" (im_data im);
|}.

(** The sample world maps a path to what [Image.open] gives for it. *)
#[global] Instance SampleHost : Host := {|
  World := gmap string (outcome Image);
  os_flavour := Posix;
  home := "/home/user";
  abspath p := p;
  normpath p := p;
  existing w := dom w;
  isdir w p := false;
  isfile w p := bool_decide (p ∈ dom w);
  walk w p := [];
  Image_open w p :=
    default (Raise (OtherException "No such file or directory")) (w !! p);
  Image_save im dst kw w := (Return (), <[dst := Return im]> w);
|}.

Definition sample_gray : Image :=
  {| im_mode := "L"; im_size := (2, 1)%Z; im_is_animated := None;
     im_data := [10; 200]%Z |}.

Definition sample_animation : Image :=
  {| im_mode := "P"; im_size := (1, 1)%Z; im_is_animated := Some true;
     im_data := [7]%Z |}.

(** What the output-path allocator has to do in the world [w] for the
    source name [filename]: [alloc fuel] is the allocator run with the
    given fuel.  With enough fuel it returns a path [dst] that does not
    exist; [dst] is the plain name when that one is free, and otherwise
    the numbered name of the least [n >= 2] that is free. *)
Definition allocation_spec `{Host} (w : World) (out_dir filename suffix : string)
    (alloc : nat → option string) : Prop :=
  let name := (OsPath.splitext os_flavour filename).1 in
  let ext := (OsPath.splitext os_flavour filename).2 in
  let plain := OsPath.join os_flavour out_dir (name ++ suffix ++ ext) in
  let numbered (n : nat) :=
    OsPath.join os_flavour out_dir (name ++ suffix ++ "-" ++ pretty n ++ ext) in
  ∃ (fuel : nat) (dst : string),
    (∀ fuel', (fuel ≤ fuel')%nat → alloc fuel' = Some dst)
    ∧ (dst ∉ existing w)
    ∧ (plain ∉ existing w → dst = plain)
    ∧ (plain ∈ existing w →
       ∃ n, (2 ≤ n)%nat ∧ dst = numbered n
            ∧ ∀ m, (2 ≤ m < n)%nat → numbered m ∈ existing w)
    ∧ (plain ∈ existing w → numbered 2 ∉ existing w → dst = numbered 2).

(** The number and the source name of a per-file line. *)
Definition line_source (l : Line) : option (nat * string) :=
  match l with
  | LineOK i _ src _ | LineSKIP i _ src _ => Some (i, src)
  | _ => None
  end.

Definition is_ok_line (l : Line) : bool :=
  match l with LineOK _ _ _ _ => true | _ => false end.

Definition is_skip_line (l : Line) : bool :=
  match l with LineSKIP _ _ _ _ => true | _ => false end.

(** What a batch over [targets] has to print and count: one line per
    target, numbered from 1 and in the order of [targets], then the
    footer with the counts [ok] and [skip], which add up to the number of
    targets.  [run fuel] is the batch run with the given fuel. *)
Definition batch_spec `{Host} (out_dir : string) (targets : list string)
    (run : nat → option Run) : Prop :=
  ∃ (fuel ok skip : nat) (lines : list Line) (w' : World),
    (∀ f, (fuel ≤ f)%nat →
       run f = Some (RunBatch 0
                       (lines ++ [LineRule; LineOutDir out_dir;
                                  LineDone ok skip (length targets)])%list w'))
    ∧ (ok + skip = length targets)%nat
    ∧ omap line_source lines
      = zip (seq 1 (length targets)) (OsPath.basename os_flavour <$> targets)
    ∧ Forall (λ l, is_ok_line l || is_skip_line l = true) lines
    ∧ ok = length (filter (λ l, is_ok_line l = true) lines)
    ∧ skip = length (filter (λ l, is_skip_line l = true) lines).

(** [run] returns [r] whenever it is given enough fuel. *)
Definition returns_with_fuel {A : Type} (run : nat → option A) (r : A) : Prop :=
  ∃ f0 : nat, ∀ f, (f0 ≤ f)%nat → run f = Some r.

(** The conversions of a batch, one after the other.  A row is the
    world before a conversion, what the conversion returned, and the
    world it left.  [batch_rows conv targets w rows w']: the targets are
    converted in their order by [conv], the first one in the world [w]
    and each next one in the world the conversion before it left; [rows]
    holds one row per target and [w'] is the world after the last one. *)
Inductive batch_rows `{Host}
    (conv : nat → string → World → option ((bool * string) * World))
    : list string → World → list (World * (bool * string) * World) → World → Prop :=
  | batch_rows_nil (w : World) : batch_rows conv [] w [] w
  | batch_rows_cons (p : string) (rest : list string) (w : World)
      (r : bool * string) (w1 : World)
      (rows : list (World * (bool * string) * World)) (w' : World) :
      returns_with_fuel (λ f, conv f p w) (r, w1) →
      batch_rows conv rest w1 rows w' →
      batch_rows conv (p :: rest) w ((w, r, w1) :: rows) w'.

(** What the conversions returned. *)
Definition row_results `{Host} (rows : list (World * (bool * string) * World))
    : list (bool * string) :=
  (λ row, row.1.2) <$> rows.

Definition count_ok (results : list (bool * string)) : nat :=
  length (filter (λ r, r.1 = true) results).

Definition count_skip (results : list (bool * string)) : nat :=
  length (filter (λ r, r.1 = false) results).

(** What a per-file line reports, the printed names apart: its number,
    the total, and the reason when it is a SKIP line. *)
Definition line_report (l : Line) : option (nat * nat * option string) :=
  match l with
  | LineOK i total _ _ => Some (i, total, None)
  | LineSKIP i total _ info => Some (i, total, Some info)
  | _ => None
  end.

(** What the line of the [i]-th target has to report when its
    conversion returned [r]: OK for success, SKIP with the reason
    otherwise. *)
Definition row_report (total i : nat) (r : bool * string)
    : nat * nat * option string :=
  (i, total, if r.1 then None else Some r.2).

(** The line of the [i]-th target [p] when its conversion returned [r],
    with the names as [os.path.basename] gives them. *)
Definition row_line `{Host} (total i : nat) (p : string) (r : bool * string)
    : Line :=
  if r.1
  then LineOK i total (OsPath.basename os_flavour p) (OsPath.basename os_flavour r.2)
  else LineSKIP i total (OsPath.basename os_flavour p) r.2.

Fixpoint rows_lines `{Host} (total i : nat) (targets : list string)
    (results : list (bool * string)) : list Line :=
  match targets, results with
  | p :: targets, r :: results =>
      row_line total i p r :: rows_lines total (S i) targets results
  | _, _ => []
  end.

(** What a batch over [targets], started in the world [w], has to do
    with the conversion function [conv]: [rows] are its conversions, one
    after the other, and [w'] the world they leave; with enough fuel the
    batch returns 0 in that world after printing [lines] and the footer;
    there is one line per target, line [i] reports target [i] as OK when
    its conversion succeeded and as SKIP with the returned reason when it
    did not; the footer counts the successes and the failures, which add
    up to the number of targets.  On a POSIX host the lines are given in
    full, names included. *)
Definition batch_report `{Host}
    (conv : nat → string → World → option ((bool * string) * World))
    (out_dir : string) (targets : list string) (w : World)
    (run : nat → option Run)
    (rows : list (World * (bool * string) * World)) (w' : World)
    (lines : list Line) : Prop :=
  let results := row_results rows in
  let total := length targets in
  batch_rows conv targets w rows w'
  ∧ returns_with_fuel run
      (RunBatch 0
         (lines ++ [LineRule; LineOutDir out_dir;
                    LineDone (count_ok results) (count_skip results) total])%list
         w')
  ∧ length lines = total
  ∧ line_report <$> lines
    = Some <$> zip_with (row_report total) (seq 1 total) results
  ∧ (os_flavour = Posix → lines = rows_lines total 1 targets results)
  ∧ (count_ok results + count_skip results = total)%nat.

(** A failure is a skip: a target that cannot be opened in the world
    the batch has reached gives the result failure with the reason of the
    exception, a target that is animated gives failure with the skip
    reason, and in both cases the conversion leaves the world as it
    was. *)
Definition failures_are_skips `{Host} (targets : list string)
    (rows : list (World * (bool * string) * World)) : Prop :=
  ∀ (k : nat) (p : string) (wk : World) (r : bool * string) (wk' : World),
    targets !! k = Some p → rows !! k = Some (wk, r, wk') →
    (∀ e, Image_open wk p = Raise e →
       wk' = wk
       ∧ r = (false,
              match e with
              | UnidentifiedImageError _ => "不正な画像/未対応の形式"
              | _ => "失敗: " ++ exn_str e
              end))
    ∧ (∀ im, Image_open wk p = Return im → getattr_is_animated im = true →
         wk' = wk ∧ r = (false, "アニメGIFのためスキップ")).

(** Where a collected target comes from.  [from_walk w top x]: the walk
    of the directory [top] lists a file whose normalised path is [x], an
    image file.  [offered w p x]: the input [p] contributes [x], as a
    file of the directory [p] or as the file [p] itself. *)
Definition from_walk `{Host} (w : World) (top x : string) : Prop :=
  ∃ entry fn,
    entry ∈ walk w top ∧ fn ∈ entry.2
    ∧ x = norm (OsPath.join os_flavour entry.1.1 fn)
    ∧ is_image_file os_flavour x = true.

Definition offered `{Host} (w : World) (p x : string) : Prop :=
  p ≠ ""
  ∧ if isdir w (norm p) then from_walk w (norm p) x
    else isfile w (norm p) = true
         ∧ is_image_file os_flavour (norm p) = true ∧ x = norm p.

(** The invariant of the accumulator of [collect_targets]: [paths] has
    no duplicates, [seen] holds the same paths, all are image files. *)
Definition acc_ok `{Host} (acc : list string * gset string) : Prop :=
  NoDup acc.1
  ∧ (∀ x, x ∈ acc.2 ↔ x ∈ acc.1)
  ∧ Forall (λ x, is_image_file os_flavour x = true) acc.1.

(** "Invoked with path arguments the program runs the CLI batch, invoked
    without arguments it launches the GUI", for a program [prog] run with
    some fuel on its arguments in a world. *)
Definition runs_batch_on_arguments `{Host}
    (prog : nat → list string → World → option Run) : Prop :=
  ∀ argv w, argv ≠ [] →
    ∃ fuel code out w', prog fuel argv w = Some (RunBatch code out w').

Definition launches_gui_without_arguments `{Host}
    (prog : nat → list string → World → option Run) : Prop :=
  ∀ fuel w, prog fuel [] w = Some RunGui.

Definition cli_and_gui `{Host}
    (prog : nat → list string → World → option Run) : Prop :=
  runs_batch_on_arguments prog ∧ launches_gui_without_arguments prog.

(** What a batch returned and printed. *)
Definition run_output `{Host} (r : Run) : option (Z * list Line) :=
  match r with
  | RunGui => None
  | RunBatch code out _ => Some (code, out)
  end.

(** A sample world with one still image and one animation. *)
Definition sample_world : @World SampleHost :=
  ({[ "/in/cat.png" := Return sample_gray;
      "/in/spin.gif" := Return sample_animation ]}
   : gmap string (outcome Image)).

(** ** Characters of a path *)

(** [c in s]. *)
Fixpoint has_char (c : ascii) (s : string) : bool :=
  match s with
  | EmptyString => false
  | String a s' => bool_decide (a = c) || has_char c s'
  end.

(** [s] holds dots only. *)
Fixpoint all_dots (s : string) : bool :=
  match s with
  | EmptyString => true
  | String a s' => bool_decide (a = OsPath.extsep) && all_dots s'
  end.

(** [s] holds no path separator of the flavour. *)
Definition sep_free (fl : flavour) (s : string) : Prop :=
  ∀ c, c ∈ OsPath.seps fl → has_char c s = false.

(** [d] can stand before a file name: it is empty or ends with a
    separator. *)
Definition dir_prefix (fl : flavour) (d : string) : Prop :=
  d = EmptyString ∨ Py.ends_with_any (OsPath.seps fl) d = true.

(** ** More of the programs: preview helpers and the file lists *)

(** [im.resize((nw, nh), Image.LANCZOS)]; it can raise (Pillow rejects
    a size with a side that is not positive). *)
Class PillowResize := {
  Image_resize : Image → Z * Z → outcome Image;
}.

Module PyNum.

(** [int(x)] on a float: truncation toward zero. *)
Definition int_of_float (x : R) : Z :=
  if Rle_dec 0 x then Zfloor x else Zceil x.

(** [min(a, b, c)]: the first of the smallest. *)
Definition min3 (a b c : R) : R :=
  let m := if Rlt_dec b a then b else a in
  if Rlt_dec c m then c else m.

End PyNum.

Module PreviewApp.
Section App.
Context `{Pillow} `{PillowResize} `{Host}.

(** [resize_to_box(im, max_w, max_h)].  The product [w * scale] is
    exact here; the float product can fall just below an integer that the
    exact one reaches, so the properties bound the requested size and do
    not fix it. *)
Definition resize_to_box (im : Image) (max_w max_h : Z) : outcome Image :=
  let '(w, h) := im_size im in
  if (w =? 0)%Z || (h =? 0)%Z || (max_w <=? 0)%Z || (max_h <=? 0)%Z
  then Return im
  else
    a ← PyFloat.truediv (IZR max_w) (IZR w);
    b ← PyFloat.truediv (IZR max_h) (IZR h);
    let scale := PyNum.min3 1.0 a b in
    if Rlt_dec scale 1.0 then
      let nw := PyNum.int_of_float (IZR w * scale) in
      let nh := PyNum.int_of_float (IZR h * scale) in
      Image_resize im (nw, nh)
    else Return im.

(** [make_preview_base(path)]: [None] on any exception. *)
Definition make_preview_base (w : World) (path : string) : option Image :=
  match Image_open w path with
  | Return im => Some (PreviewTool.to_gray_L im)
  | Raise _ => None
  end.

End App.
End PreviewApp.

(** The file list of [launch_gui] in [grayscale_tool.py] and
    [grayscale_adjust_tool.py]: the list [targets], the rows of the
    listbox [lb] and the number shown by the label [lbl_count]. *)
Record GuiState := {
  gui_targets : list string;
  gui_lb : list string;
  gui_count : nat;
}.

Module BatchGui.
Section Gui.
Context `{Host}.

(** [_push(items)]. *)
Definition _push (w : World) (items : list string) (st : GuiState) : GuiState :=
  let new := collect_targets w items in
  let exist : gset string := list_to_set (gui_targets st) in
  let added := filter (λ p, p ∉ exist) new in
  if bool_decide (added = []) then st
  else
    let targets := (gui_targets st ++ added)%list in
    {| gui_targets := targets;
       gui_lb := foldl (λ lb p, (lb ++ [p])%list) (gui_lb st) added;
       gui_count := length targets |}.

(** [clear_list()]. *)
Definition clear_list (st : GuiState) : GuiState :=
  {| gui_targets := []; gui_lb := []; gui_count := 0 |}.

(** The state when the window opens. *)
Definition initial : GuiState :=
  {| gui_targets := []; gui_lb := []; gui_count := 0 |}.

End Gui.
End BatchGui.

(** The file list is in order: the listbox and the label show the
    targets, which are image files without duplicates. *)
Definition gui_ok `{Host} (st : GuiState) : Prop :=
  gui_lb st = gui_targets st
  ∧ gui_count st = length (gui_targets st)
  ∧ NoDup (gui_targets st)
  ∧ Forall (λ x, is_image_file os_flavour x = true) (gui_targets st).

#[global] Instance SampleResize : PillowResize := {|
  Image_resize im size :=
    if (0 <? size.1)%Z && (0 <? size.2)%Z then
      Return {| im_mode := im_mode im; im_size := size;
                im_is_animated := None; im_data := im_data im |}
    else Raise (OtherException "height and width must be > 0");
|}.

(** Saving the image [gray] at the allocated path [alloc], as the three
    conversion functions end: the options come from the destination, an
    exception of the save is a skip. *)
Definition save_at `{Host} (w : World) (gray : Image) (alloc : option string)
    : option ((bool * string) * World) :=
  match alloc with
  | None => None
  | Some dst =>
      match Image_save gray dst (save_kw_for dst) w with
      | (Raise e, w') => Some (handle (Raise e), w')
      | (Return _, w') => Some ((true, dst), w')
      end
  end.

(* ================================================================== *)
(** * Properties *)

Example splitext_ex1 : OsPath.splitext Posix "a/b.c/photo.tar.GZ" = ("a/b.c/photo.tar", ".GZ").
Proof. reflexivity. Qed.
Example splitext_ex2 : OsPath.splitext Posix "a/b.c/...rc" = ("a/b.c/...rc", "").
Proof. reflexivity. Qed.
Example splitext_ex3 : OsPath.splitext Nt "a.b\photo" = ("a.b\photo", "").
Proof. reflexivity. Qed.
Example splitext_ex4 : OsPath.splitext Posix "a.b\photo" = ("a", ".b\photo").
Proof. reflexivity. Qed.
Example splitext_ex5 : OsPath.splitext Posix ".x.png" = (".x", ".png").
Proof. reflexivity. Qed.
Example is_image_ex1 : is_image_file Nt "C:\pics\Holiday.JPG" = true.
Proof. reflexivity. Qed.
Example is_image_ex2 : is_image_file Nt "C:\pics\notes.txt" = false.
Proof. reflexivity. Qed.
Example join_ex : OsPath.join Posix "/home/u/Desktop" "outputfolder" = "/home/u/Desktop/outputfolder".
Proof. reflexivity. Qed.

(** ** Python floats: rounding and powers *)

Section FloatFacts.
Local Open Scope R_scope.

Lemma one_point_zero : 1.0 = 1.
Proof. lra. Qed.

Lemma round_near (x : R) :
  IZR (PyFloat.round x) - 1 / 2 <= x <= IZR (PyFloat.round x) + 1 / 2.
Proof.
  unfold PyFloat.round.
  pose proof (Zfloor_bound x) as [Hlo Hhi].
  destruct (Rlt_dec (x - IZR (Zfloor x)) (1 / 2)) as [Hd | Hd].
  - lra.
  - destruct (Rlt_dec (1 / 2) (x - IZR (Zfloor x))) as [Hu | Hu].
    + rewrite plus_IZR. lra.
    + destruct (Z.even (Zfloor x)); [lra | rewrite plus_IZR; lra].
Qed.

Lemma round_mono (x y : R) : x <= y → (PyFloat.round x ≤ PyFloat.round y)%Z.
Proof.
  intros Hxy.
  destruct (Req_dec_T x y) as [-> | Hne]; [lia |].
  destruct (Z_le_gt_dec (PyFloat.round x) (PyFloat.round y)) as [Hle | Hgt];
    [exact Hle | exfalso].
  assert (IZR (PyFloat.round y) + 1 <= IZR (PyFloat.round x)) as Hz.
  { rewrite <- plus_IZR. apply IZR_le. lia. }
  pose proof (round_near x). pose proof (round_near y). lra.
Qed.

Lemma round_range (x : R) :
  0 <= x <= 255 → (0 ≤ PyFloat.round x ≤ 255)%Z.
Proof.
  intros [Hlo Hhi]. pose proof (round_near x) as [Ha Hb].
  split.
  - assert (-1 < PyFloat.round x)%Z; [apply lt_IZR; lra | lia].
  - assert (PyFloat.round x < 256)%Z; [apply lt_IZR; lra | lia].
Qed.

Lemma max_floor (g : R) : 1e-6 <= PyFloat.max g 1e-6.
Proof. unfold PyFloat.max. destruct (Rlt_dec g 1e-6); lra. Qed.

Lemma max_id (g : R) : 1e-6 <= g → PyFloat.max g 1e-6 = g.
Proof. intros Hg. unfold PyFloat.max. destruct (Rlt_dec g 1e-6); lra. Qed.

Lemma truediv_nonzero (x y : R) : y ≠ 0 → PyFloat.truediv x y = Return (x / y).
Proof. intros Hy. unfold PyFloat.truediv. destruct (Req_dec_T y 0); done. Qed.

Lemma Rpower_unit_interval (x y : R) :
  0 < x <= 1 → 0 < y → 0 < Rpower x y <= 1.
Proof.
  intros [Hx0 Hx1] Hy. split.
  - unfold Rpower. apply exp_pos.
  - assert (Rpower 1 y = 1) as H1.
    { unfold Rpower. rewrite ln_1, Rmult_0_r. apply exp_0. }
    apply Rle_trans with (Rpower 1 y); [apply Rle_Rpower_l; lra | lra].
Qed.

End FloatFacts.

(** ** The gamma table *)

Section GammaTable.
Local Open Scope R_scope.

Lemma mapM_outcome_total {A B : Type} (f : A → outcome B) (g : A → B) (l : list A) :
  (∀ x, x ∈ l → f x = Return (g x)) → mapM f l = Return (g <$> l).
Proof.
  induction l as [| a l IH]; intros Hf; simpl; [done |].
  rewrite (Hf a) by left. simpl.
  rewrite IH by (intros x Hx; apply Hf; by right). done.
Qed.

(** For a positive exponent no entry of the table raises. *)
Lemma gamma_lut_total (inv : R) :
  0 < inv →
  gamma_lut inv
  = Return ((λ i : Z, PyFloat.round (real_pow (IZR i / 255) inv * 255)) <$> seqZ 0 256).
Proof.
  intros Hinv. unfold gamma_lut. apply mapM_outcome_total.
  intros i [Hi0 Hi1]%elem_of_seqZ.
  rewrite truediv_nonzero by lra. simpl.
  unfold PyFloat.pow, real_pow.
  destruct (Rlt_dec 0 (IZR i / 255)) as [Hpos | Hnpos].
  - destruct (Req_dec_T (IZR i / 255) 0); [lra | done].
  - assert (0 <= IZR i) by (apply IZR_le; lia).
    assert (IZR i / 255 = 0) as Hz by lra.
    destruct (Req_dec_T (IZR i / 255) 0); [| done].
    destruct (Rlt_dec 0 inv); [done | lra].
Qed.

Lemma real_pow_unit_interval (x y : R) :
  0 <= x <= 1 → 0 < y → 0 <= real_pow x y <= 1.
Proof.
  intros [Hx0 Hx1] Hy. unfold real_pow.
  destruct (Req_dec_T x 0); [lra |].
  pose proof (Rpower_unit_interval x y). lra.
Qed.

Lemma real_pow_mono (x1 x2 y : R) :
  0 <= x1 <= x2 → 0 < y → real_pow x1 y <= real_pow x2 y.
Proof.
  intros [Hx0 Hx12] Hy. unfold real_pow.
  destruct (Req_dec_T x1 0) as [-> | Hx1], (Req_dec_T x2 0) as [-> | Hx2]; try lra.
  - left. unfold Rpower. apply exp_pos.
  - apply Rle_Rpower_l; lra.
Qed.

End GammaTable.

(** ** The adjustment pipeline *)

Section Pipeline.
Context `{Pillow}.
Local Open Scope R_scope.

(** C1: with an identity configuration (autocontrast disabled,
    brightness, contrast and gamma within 1e-6 of 1.0) the pipeline of
    both programs returns the grayscale image it was given, so what is
    saved is the plain grayscale conversion. *)
Theorem identity_config_is_noop (gray : Image) (cfg : Config) :
  identity_cfg cfg →
  AdjustTool.apply_adjustments gray cfg = Return gray
  ∧ PreviewTool.apply_adjustments_L gray cfg = Return gray
  ∧ (∀ im, PreviewTool.apply_adjustments_L (PreviewTool.to_gray_L im) cfg
           = Return (PreviewTool.to_gray_L im)).
Proof.
  intros (Hac & Hb & Hc & Hg).
  unfold AdjustTool.apply_adjustments, PreviewTool.apply_adjustments_L.
  rewrite one_point_zero, Hac.
  destruct (Rlt_dec 1e-6 (Rabs (default 1 (cfg_brightness cfg) - 1))); [lra |].
  destruct (Rlt_dec 1e-6 (Rabs (default 1 (cfg_contrast cfg) - 1))); [lra |].
  destruct (Rlt_dec 1e-6 (Rabs (default 1 (cfg_gamma cfg) - 1))); [lra |].
  done.
Qed.

(** C5: the pipeline runs autocontrast, brightness, contrast and gamma
    in this order, each step on the output of the one before and each
    one skipped at its identity value. *)
Theorem pipeline_order (gray : Image) (cfg : Config) :
  AdjustTool.apply_adjustments gray cfg
  = run_steps [step_autocontrast cfg; step_brightness cfg;
               step_contrast cfg; step_gamma cfg] gray
  ∧ PreviewTool.apply_adjustments_L gray cfg
    = run_steps [step_autocontrast cfg; step_brightness cfg;
                 step_contrast cfg; step_gamma cfg] gray.
Proof.
  unfold AdjustTool.apply_adjustments, PreviewTool.apply_adjustments_L,
    run_steps, step_autocontrast, step_brightness, step_contrast, step_gamma.
  rewrite one_point_zero. simpl.
  destruct (default false (cfg_autocontrast cfg)); simpl;
    destruct (Rlt_dec 1e-6 (Rabs (default 1 (cfg_brightness cfg) - 1)));
    destruct (Rle_dec (Rabs (default 1 (cfg_brightness cfg) - 1)) 1e-6);
    try lra; simpl;
    destruct (Rlt_dec 1e-6 (Rabs (default 1 (cfg_contrast cfg) - 1)));
    destruct (Rle_dec (Rabs (default 1 (cfg_contrast cfg) - 1)) 1e-6);
    try lra; simpl;
    destruct (Rlt_dec 1e-6 (Rabs (default 1 (cfg_gamma cfg) - 1)));
    destruct (Rle_dec (Rabs (default 1 (cfg_gamma cfg) - 1)) 1e-6);
    try lra; done.
Qed.

(** With every step active the result is the table applied to the
    contrast of the brightness of the autocontrast of the input. *)
Lemma pipeline_all_steps (gray : Image) (cutoff : Z) (b c g : R) :
  1e-6 < Rabs (b - 1) → 1e-6 < Rabs (c - 1) → 1e-6 < Rabs (g - 1) →
  AdjustTool.apply_adjustments gray
    {| cfg_autocontrast := Some true; cfg_cutoff := Some cutoff;
       cfg_brightness := Some b; cfg_contrast := Some c; cfg_gamma := Some g |}
  = (lut ← gamma_lut (1 / PyFloat.max g 1e-6);
     Return (Image_point
               (Contrast_enhance
                  (Brightness_enhance (ImageOps_autocontrast gray cutoff) b) c)
               lut)).
Proof.
  intros Hb Hc Hg. unfold AdjustTool.apply_adjustments. simpl.
  rewrite one_point_zero.
  destruct (Rlt_dec 1e-6 (Rabs (b - 1))); [| lra].
  destruct (Rlt_dec 1e-6 (Rabs (c - 1))); [| lra].
  destruct (Rlt_dec 1e-6 (Rabs (g - 1))); [| lra].
  pose proof (max_floor g).
  rewrite truediv_nonzero by lra. done.
Qed.

(** C9: whatever gamma is, zero and negative values included, the
    divisor [max(gamma, 1e-6)] is at least 1e-6, the division and the
    table do not raise, and the pipeline returns an image. *)
Theorem gamma_never_divides_by_zero (g : R) :
  1e-6 <= PyFloat.max g 1e-6
  ∧ PyFloat.truediv 1.0 (PyFloat.max g 1e-6)
    = Return (1.0 / PyFloat.max g 1e-6)
  ∧ (∃ lut, gamma_lut (1.0 / PyFloat.max g 1e-6) = Return lut
            ∧ length lut = 256%nat)
  ∧ (∀ gray cfg, cfg_gamma cfg = Some g →
       (∃ im, AdjustTool.apply_adjustments gray cfg = Return im)
       ∧ (∃ im, PreviewTool.apply_adjustments_L gray cfg = Return im)).
Proof.
  pose proof (max_floor g) as Hmax.
  assert (0 < 1.0 / PyFloat.max g 1e-6) as Hinv.
  { apply Rdiv_lt_0_compat; lra. }
  split; [exact Hmax |].
  split; [apply truediv_nonzero; lra |].
  split.
  - eexists. split; [apply gamma_lut_total; exact Hinv |].
    rewrite length_fmap, length_seqZ. done.
  - intros gray cfg Hg.
    unfold AdjustTool.apply_adjustments, PreviewTool.apply_adjustments_L.
    rewrite Hg. simpl.
    destruct (Rlt_dec 1e-6 (Rabs (g - 1.0))); [| by eauto].
    rewrite truediv_nonzero by lra. simpl.
    rewrite gamma_lut_total by exact Hinv. simpl. by eauto.
Qed.

End Pipeline.

(** ** The gamma table within the documented range *)

Section GammaRange.
Local Open Scope R_scope.

Lemma clip8_in_range (v : Z) : (0 ≤ v ≤ 255)%Z → clip8 v = v.
Proof. unfold clip8. lia. Qed.

Lemma clip8_fmap_id (l : list Z) :
  Forall (λ v, (0 ≤ v ≤ 255)%Z) l → clip8 <$> l = l.
Proof.
  induction 1 as [| v l Hv _ IH]; [done |].
  by rewrite fmap_cons, clip8_in_range, IH.
Qed.

Lemma level_unit_interval (i : Z) : (0 ≤ i < 256)%Z → 0 <= IZR i / 255 <= 1.
Proof.
  intros [Hi0 Hi1].
  assert (0 <= IZR i) by (apply IZR_le; lia).
  assert (IZR i <= 255) by (apply IZR_le; lia).
  lra.
Qed.

Lemma lut_entry_spec_range (g : R) (i : Z) :
  0 < g → (0 ≤ i < 256)%Z → (0 ≤ lut_entry_spec g i ≤ 255)%Z.
Proof.
  intros Hg Hi. unfold lut_entry_spec. apply round_range.
  assert (0 < 1 / g) by (apply Rdiv_lt_0_compat; lra).
  pose proof (real_pow_unit_interval (IZR i / 255) (1 / g)
                (level_unit_interval i Hi)). lra.
Qed.

Lemma lut_entry_spec_mono (g : R) (i j : Z) :
  0 < g → (0 ≤ i)%Z → (i ≤ j)%Z → (j < 256)%Z →
  (lut_entry_spec g i ≤ lut_entry_spec g j)%Z.
Proof.
  intros Hg Hi Hij Hj. unfold lut_entry_spec. apply round_mono.
  assert (0 < 1 / g) by (apply Rdiv_lt_0_compat; lra).
  assert (IZR i <= IZR j) by (apply IZR_le; lia).
  pose proof (level_unit_interval i ltac:(lia)).
  pose proof (real_pow_mono (IZR i / 255) (IZR j / 255) (1 / g)). lra.
Qed.

(** In the model an entry is the exact formula rounded. *)
Lemma lut_entry_spec_near (g : R) (i : Z) :
  Rabs (IZR (lut_entry_spec g i) - real_pow (IZR i / 255) (1 / g) * 255) <= 1 / 2.
Proof.
  unfold lut_entry_spec.
  pose proof (round_near (real_pow (IZR i / 255) (1 / g) * 255)) as [Hlo Hhi].
  apply Rabs_le. lra.
Qed.


End GammaRange.

(** ** Extensions and letter case *)

Section LetterCase.

Ltac all_chars a :=
  destruct a as [[] [] [] [] [] [] [] []]; vm_compute; split; congruence.

Lemma caseless_dot : caseless "."%char.
Proof. intros a. all_chars a. Qed.

Lemma caseless_slash : caseless "/"%char.
Proof. intros a. all_chars a. Qed.

Lemma caseless_backslash : caseless "\"%char.
Proof. intros a. all_chars a. Qed.

Lemma lower_char_idemp (a : ascii) : Py.lower_char (Py.lower_char a) = Py.lower_char a.
Proof. destruct a as [[] [] [] [] [] [] [] []]; reflexivity. Qed.

Lemma lower_idemp (s : string) : Py.lower (Py.lower s) = Py.lower s.
Proof. induction s as [| a s IH]; simpl; [done |]. by rewrite lower_char_idemp, IH. Qed.

Lemma lower_take (n : nat) (s : string) : Py.lower (Py.take n s) = Py.take n (Py.lower s).
Proof.
  revert s. induction n as [| n IH]; intros [| a s]; simpl; try done.
  by rewrite IH.
Qed.

Lemma lower_drop (n : nat) (s : string) : Py.lower (Py.drop n s) = Py.drop n (Py.lower s).
Proof. revert s. induction n as [| n IH]; intros [| a s]; simpl; auto. Qed.

Lemma lower_slice (s : string) (lo hi : Z) :
  Py.lower (Py.slice s lo hi) = Py.slice (Py.lower s) lo hi.
Proof. unfold Py.slice. by rewrite lower_take, lower_drop. Qed.

Lemma lower_single (c : ascii) (s : string) :
  caseless c → Py.lower s = String c EmptyString ↔ s = String c EmptyString.
Proof.
  intros Hc. destruct s as [| a [| b s]]; simpl; split; try done.
  - intros [= Ha]. by apply (proj1 (Hc a)) in Ha as ->.
  - intros [= ->]. f_equal. by apply (Hc c).
Qed.

Lemma rfind_from_lower (c : ascii) (s : string) (i : Z) :
  caseless c → Py.rfind_from c (Py.lower s) i = Py.rfind_from c s i.
Proof.
  intros Hc. revert i. induction s as [| a s IH]; intros i; simpl; [done |].
  rewrite IH. by rewrite (bool_decide_ext _ _ (Hc a)).
Qed.

Lemma splitext_scan_lower (p : string) (i : Z) (steps : nat) :
  OsPath.splitext_scan (Py.lower p) i steps = OsPath.splitext_scan p i steps.
Proof.
  revert i. induction steps as [| k IH]; intros i; simpl; [done |].
  rewrite IH, <- lower_slice.
  erewrite bool_decide_ext; [done |].
  by rewrite (lower_single _ _ caseless_dot).
Qed.

Lemma _splitext_lower (p : string) (sep : ascii) (altsep : option ascii) :
  caseless sep → (∀ a, altsep = Some a → caseless a) →
  OsPath._splitext (Py.lower p) sep altsep
  = (Py.lower (OsPath._splitext p sep altsep).1,
     Py.lower (OsPath._splitext p sep altsep).2).
Proof.
  intros Hsep Halt. unfold OsPath._splitext, Py.rfind.
  rewrite !(rfind_from_lower _ _ _ Hsep).
  rewrite !(rfind_from_lower _ _ _ caseless_dot).
  assert (match altsep with
          | Some a => Z.max (Py.rfind_from sep p 0) (Py.rfind_from a (Py.lower p) 0)
          | None => Py.rfind_from sep p 0
          end
          = match altsep with
            | Some a => Z.max (Py.rfind_from sep p 0) (Py.rfind_from a p 0)
            | None => Py.rfind_from sep p 0
            end) as ->.
  { destruct altsep as [a |]; [| done]. by rewrite (rfind_from_lower _ _ _ (Halt a eq_refl)). }
  rewrite splitext_scan_lower.
  destruct (_ && _); simpl; [| done].
  by rewrite lower_take, lower_drop.
Qed.

Lemma splitext_lower (fl : flavour) (p : string) :
  (OsPath.splitext fl (Py.lower p)).2 = Py.lower (OsPath.splitext fl p).2.
Proof.
  unfold OsPath.splitext. rewrite _splitext_lower; [done | |].
  - destruct fl; [apply caseless_slash | apply caseless_backslash].
  - intros a. destruct fl; simpl; [done |]. intros [= <-]. apply caseless_slash.
Qed.

(** C10: the extension test is case-insensitive.  A path is accepted
    exactly when its lower-cased extension is in [IMAGE_EXTS], so two
    paths that differ only in letter case get the same answer. *)
Theorem is_image_file_case_insensitive (fl : flavour) (path : string) :
  (is_image_file fl path = true
   ↔ Py.lower (OsPath.splitext fl path).2 ∈ IMAGE_EXTS)
  ∧ (∀ q, Py.lower q = Py.lower path →
          is_image_file fl q = is_image_file fl path)
  ∧ is_image_file fl (Py.lower path) = is_image_file fl path.
Proof.
  assert (∀ q, Py.lower q = Py.lower path →
               is_image_file fl q = is_image_file fl path) as Hcase.
  { intros q Hq. unfold is_image_file.
    by rewrite <- !splitext_lower, Hq. }
  split; [apply bool_decide_eq_true |].
  split; [exact Hcase |].
  apply Hcase, lower_idemp.
Qed.

Example is_image_file_upper : is_image_file Nt "C:\pics\IMG_0001.JPG" = true.
Proof. reflexivity. Qed.

Example is_image_file_mixed : is_image_file Posix "/home/user/scan.Png" = true.
Proof. reflexivity. Qed.

Example is_image_file_other : is_image_file Posix "/home/user/scan.PDF" = false.
Proof. reflexivity. Qed.

End LetterCase.

(** ** The output-path allocator *)

Section Allocator.
Context `{Host}.
Local Open Scope nat_scope.

Lemma string_length_app (s1 s2 : string) :
  String.length (s1 +:+ s2) = String.length s1 + String.length s2.
Proof. induction s1 as [| a s1 IH]; simpl; [done |]. by rewrite IH. Qed.

Lemma string_app_inv_tail (s1 s2 e : string) : s1 ++ e = s2 ++ e → s1 = s2.
Proof.
  revert s2. induction s1 as [| a s1 IH]; intros [| b s2] Heq.
  - done.
  - apply (f_equal String.length) in Heq.
    rewrite !string_length_app in Heq. simpl in Heq. lia.
  - apply (f_equal String.length) in Heq.
    rewrite !string_length_app in Heq. simpl in Heq. lia.
  - change (String a (s1 +:+ e) = String b (s2 +:+ e)) in Heq.
    injection Heq as -> Heq. f_equal. by apply IH.
Qed.

Lemma starts_with_any_prefix (cs : list ascii) (a : ascii) (x y z : string) :
  Py.starts_with_any cs (x ++ String a y) = Py.starts_with_any cs (x ++ String a z).
Proof. by destruct x. Qed.

Lemma string_app_assoc (s1 s2 s3 : string) : (s1 ++ s2) ++ s3 = s1 ++ s2 ++ s3.
Proof.
  induction s1 as [| a s1 IH]; [done |].
  change (String a ((s1 +:+ s2) +:+ s3) = String a (s1 +:+ s2 +:+ s3)).
  by rewrite IH.
Qed.

Lemma join_inj_tail (fl : flavour) (dir x : string) (c : ascii) (y z : string) :
  OsPath.join fl dir (x ++ String c y) = OsPath.join fl dir (x ++ String c z) →
  y = z.
Proof.
  unfold OsPath.join. rewrite (starts_with_any_prefix _ c x y z).
  intros Heq.
  assert (x ++ String c y = x ++ String c z) as Heq'.
  { destruct (Py.starts_with_any _ _); [done |].
    destruct (_ || _); [by apply (inj (String.append _)) in Heq |].
    apply (inj (String.append _)) in Heq.
    change (String (OsPath.sep fl) (x ++ String c y)
            = String (OsPath.sep fl) (x ++ String c z)) in Heq.
    by injection Heq. }
  apply (inj (String.append _)) in Heq'. by injection Heq'.
Qed.

(** Distinct numbers give distinct numbered names. *)
Lemma numbered_inj (out_dir name suffix ext : string) :
  Inj (=) (=) (λ n : nat,
    OsPath.join os_flavour out_dir (name ++ suffix ++ "-" ++ pretty n ++ ext)).
Proof.
  intros n m Heq.
  rewrite <- !(string_app_assoc name suffix) in Heq.
  change ("-" ++ pretty n ++ ext) with (String "-" (pretty n ++ ext)) in Heq.
  change ("-" ++ pretty m ++ ext) with (String "-" (pretty m ++ ext)) in Heq.
  apply join_inj_tail, string_app_inv_tail in Heq.
  by apply (inj pretty) in Heq.
Qed.

(** Among the numbers [2 .. size + 2] one names a path that is free. *)
Lemma numbered_free (w : World) (out_dir name suffix ext : string) :
  ∃ n, 2 ≤ n ≤ size (existing w) + 2
       ∧ OsPath.join os_flavour out_dir
           (name ++ suffix ++ "-" ++ pretty n ++ ext) ∉ existing w.
Proof.
  set (numbered := λ n : nat,
    OsPath.join os_flavour out_dir (name ++ suffix ++ "-" ++ pretty n ++ ext)).
  set (l := seq 2 (S (size (existing w)))).
  destruct (Forall_Exists_dec (λ n, numbered n ∈ existing w)
              (λ n, numbered n ∉ existing w)
              (λ n, decide (numbered n ∈ existing w)) l) as [Hall | Hex].
  - exfalso.
    assert (NoDup (numbered <$> l)) as Hnd.
    { apply NoDup_fmap_2; [apply numbered_inj | apply NoDup_seq]. }
    assert (list_to_set (numbered <$> l) ⊆ existing w) as Hsub.
    { intros p [n [-> Hn]]%elem_of_list_to_set%list_elem_of_fmap.
      by eapply Forall_forall in Hall. }
    apply subseteq_size in Hsub.
    rewrite size_list_to_set, length_fmap in Hsub by done.
    unfold l in Hsub. rewrite length_seq in Hsub. lia.
  - apply Exists_exists in Hex as (n & Hn & Hfree).
    exists n. split; [| done].
    apply elem_of_seq in Hn. lia.
Qed.

(** The loop stops at the first free name at or after [n]. *)
Lemma safe_out_loop_spec (w : World) (out_dir name suffix ext : string) (d : nat) :
  ∀ (n : nat) (dst : string),
    OsPath.join os_flavour out_dir
      (name ++ suffix ++ "-" ++ pretty (n + d) ++ ext) ∉ existing w →
    ∃ r, (∀ fuel, d + 2 ≤ fuel →
            safe_out_loop fuel w out_dir name suffix ext dst n = Some r)
         ∧ (r ∉ existing w)
         ∧ (dst ∉ existing w → r = dst)
         ∧ (dst ∈ existing w →
            ∃ k, n ≤ k ≤ n + d
                 ∧ r = OsPath.join os_flavour out_dir
                         (name ++ suffix ++ "-" ++ pretty k ++ ext)
                 ∧ ∀ m, n ≤ m < k →
                     OsPath.join os_flavour out_dir
                       (name ++ suffix ++ "-" ++ pretty m ++ ext) ∈ existing w).
Proof.
  set (numbered := λ n : nat,
    OsPath.join os_flavour out_dir (name ++ suffix ++ "-" ++ pretty n ++ ext)).
  induction d as [| d IH]; intros n dst Hfree.
  - rewrite Nat.add_0_r in Hfree.
    destruct (decide (dst ∈ existing w)) as [Hin | Hout].
    + exists (numbered n). split; [| split; [done | split; [done |]]].
      * intros [| [| fuel]] Hfuel; [lia .. |]. simpl.
        rewrite bool_decide_eq_true_2 by done.
        by rewrite bool_decide_eq_false_2.
      * intros _. exists n. split; [lia |]. split; [done |]. lia.
    + exists dst. split; [| split; [done | split; [done | done]]].
      intros [| fuel] Hfuel; [lia |]. simpl.
      by rewrite bool_decide_eq_false_2.
  - destruct (decide (dst ∈ existing w)) as [Hin | Hout].
    + destruct (IH (n + 1) (numbered n)) as (r & Hrun & Hr & Hstop & Hgo).
      { by replace (n + 1 + d) with (n + S d) by lia. }
      exists r. split; [| split; [done | split; [done |]]].
      * intros [| fuel] Hfuel; [lia |]. simpl.
        rewrite bool_decide_eq_true_2 by done.
        apply Hrun. lia.
      * intros _.
        destruct (decide (numbered n ∈ existing w)) as [Hn | Hn].
        -- destruct (Hgo Hn) as (k & Hk & -> & Hbelow).
           exists k. split; [lia |]. split; [done |].
           intros m Hm. destruct (decide (m = n)) as [-> | Hne]; [done |].
           apply Hbelow. lia.
        -- exists n. split; [lia |]. split; [by apply Hstop |]. lia.
    + exists dst. split; [| split; [done | split; [done | done]]].
      intros [| fuel] Hfuel; [lia |]. simpl.
      by rewrite bool_decide_eq_false_2.
Qed.

Lemma safe_out_path_in_spec (w : World) (out_dir filename suffix : string) :
  allocation_spec w out_dir filename suffix
    (λ fuel, safe_out_path_in fuel w out_dir filename suffix).
Proof.
  unfold allocation_spec, safe_out_path_in.
  destruct (OsPath.splitext os_flavour filename) as [name ext]. simpl.
  destruct (numbered_free w out_dir name suffix ext) as (n & Hn & Hfree).
  destruct (safe_out_loop_spec w out_dir name suffix ext (n - 2) 2
              (OsPath.join os_flavour out_dir (name ++ suffix ++ ext)))
    as (r & Hrun & Hr & Hstop & Hgo).
  { by replace (2 + (n - 2)) with n by lia. }
  exists (n - 2 + 2), r.
  split; [exact Hrun |]. split; [exact Hr |]. split; [exact Hstop |].
  split.
  - intros Hin. destruct (Hgo Hin) as (k & Hk & -> & Hbelow).
    exists k. split; [lia |]. split; [done |]. exact Hbelow.
  - intros Hin H2. destruct (Hgo Hin) as (k & Hk & -> & Hbelow).
    destruct (decide (k = 2)) as [-> | Hne]; [done |].
    exfalso. apply H2, Hbelow. lia.
Qed.

End Allocator.


(** ** Conversion of one file *)

Section Convert.
Context `{Pillow} `{Host}.
Local Open Scope nat_scope.

(** C4: an image whose [is_animated] flag is set is skipped by each of
    the three conversion functions: the result is failure with the skip
    reason, and the world is left as it was, so nothing is written. *)
Theorem animated_inputs_are_skipped (fuel : nat) (src : string) (cfg : Config)
    (w : World) (im : Image) :
  Image_open w src = Return im →
  getattr_is_animated im = true →
  GrayscaleTool.convert_to_gray fuel src w
  = Some ((false, "アニメGIFのためスキップ"), w)
  ∧ AdjustTool.convert_one fuel src cfg w
    = Some ((false, "アニメGIFのためスキップ"), w)
  ∧ PreviewTool.convert_fullres fuel src cfg w
    = Some ((false, "アニメGIFのためスキップ"), w).
Proof.
  intros Hopen Hanim.
  unfold GrayscaleTool.convert_to_gray, GrayscaleTool.convert_to_gray_body,
    AdjustTool.convert_one, AdjustTool.convert_one_body,
    PreviewTool.convert_fullres, PreviewTool.convert_fullres_body.
  by rewrite Hopen, Hanim.
Qed.

(** An animated image is a skip of the two batch conversions. *)
Lemma animated_skip (fuel : nat) (src : string) (cfg : Config)
    (w : World) (im : Image) :
  Image_open w src = Return im →
  getattr_is_animated im = true →
  GrayscaleTool.convert_to_gray fuel src w
  = Some ((false, "アニメGIFのためスキップ"), w)
  ∧ AdjustTool.convert_one fuel src cfg w
    = Some ((false, "アニメGIFのためスキップ"), w).
Proof.
  intros Hopen Hanim.
  unfold GrayscaleTool.convert_to_gray, GrayscaleTool.convert_to_gray_body,
    AdjustTool.convert_one, AdjustTool.convert_one_body.
  by rewrite Hopen, Hanim.
Qed.

(** A file that cannot be opened is a skip with a reason. *)
Lemma unopened_inputs_are_skipped (fuel : nat) (src : string) (cfg : Config)
    (w : World) (e : exn) :
  Image_open w src = Raise e →
  GrayscaleTool.convert_to_gray fuel src w = Some (handle (Raise e), w)
  ∧ AdjustTool.convert_one fuel src cfg w = Some (handle (Raise e), w)
  ∧ PreviewTool.convert_fullres fuel src cfg w = Some (handle (Raise e), w).
Proof.
  intros Hopen.
  unfold GrayscaleTool.convert_to_gray, GrayscaleTool.convert_to_gray_body,
    AdjustTool.convert_one, AdjustTool.convert_one_body,
    PreviewTool.convert_fullres, PreviewTool.convert_fullres_body.
  by rewrite Hopen.
Qed.

Lemma handle_raise (e : exn) :
  handle (Raise e)
  = (false, match e with
            | UnidentifiedImageError _ => "不正な画像/未対応の形式"
            | _ => "失敗: " ++ exn_str e
            end).
Proof. by destruct e. Qed.

(** With enough fuel a conversion returns. *)
Lemma convert_to_gray_total (src : string) (w : World) :
  ∃ f0 r, ∀ f, f0 ≤ f → GrayscaleTool.convert_to_gray f src w = Some r.
Proof.
  unfold GrayscaleTool.convert_to_gray, GrayscaleTool.convert_to_gray_body.
  destruct (Image_open w src) as [im | e]; [| by exists 0; eauto].
  destruct (getattr_is_animated im); [by exists 0; eauto |].
  set (gray := ImageOps_grayscale _).
  destruct (safe_out_path_in_spec w GrayscaleTool.OUTPUT_DIR
              (OsPath.basename os_flavour src) "_gray")
    as (f0 & dst & Hrun & _).
  unfold GrayscaleTool.safe_out_path.
  destruct (Image_save gray dst (save_kw_for dst) w) as [[[] | e] w'] eqn:Hsave.
  all: eexists f0, _; intros f Hf; by rewrite (Hrun f Hf), Hsave.
Qed.

Lemma convert_one_total (src : string) (cfg : Config) (w : World) :
  ∃ f0 r, ∀ f, f0 ≤ f → AdjustTool.convert_one f src cfg w = Some r.
Proof.
  unfold AdjustTool.convert_one, AdjustTool.convert_one_body.
  destruct (Image_open w src) as [im | e]; [| by exists 0; eauto].
  destruct (getattr_is_animated im); [by exists 0; eauto |].
  destruct (AdjustTool.apply_adjustments _ cfg) as [out_img | e];
    [| by exists 0; eauto].
  destruct (safe_out_path_in_spec w AdjustTool.OUTPUT_DIR
              (OsPath.basename os_flavour src) "_adj")
    as (f0 & dst & Hrun & _).
  unfold AdjustTool.safe_out_path.
  destruct (Image_save out_img dst (save_kw_for dst) w) as [[[] | e'] w'] eqn:Hsave.
  all: eexists f0, _; intros f Hf; by rewrite (Hrun f Hf), Hsave.
Qed.

End Convert.

(** ** The batch *)

Section Batch.
Context `{Host}.
Local Open Scope nat_scope.

Variable conv : nat → string → World → option ((bool * string) * World).
Hypothesis conv_total :
  ∀ p w, ∃ f0 r, ∀ f, f0 ≤ f → conv f p w = Some r.

(** The loop visits every target, in order, whatever the conversions
    return, and counts each one once. *)
Lemma process_loop_total (total : nat) (targets : list string) :
  ∀ (i ok skip : nat) (out : list Line) (w : World),
  ∃ (f0 ok' skip' : nat) (lines : list Line) (w' : World),
    (∀ f, f0 ≤ f →
       process_loop (conv f) total targets i ok skip out w
       = Some (ok', skip', (out ++ lines)%list, w'))
    ∧ ok' + skip' = ok + skip + length targets
    ∧ omap line_source lines
      = zip (seq i (length targets)) (OsPath.basename os_flavour <$> targets)
    ∧ Forall (λ l, is_ok_line l || is_skip_line l = true) lines
    ∧ ok' = ok + length (filter (λ l, is_ok_line l = true) lines)
    ∧ skip' = skip + length (filter (λ l, is_skip_line l = true) lines).
Proof.
  induction targets as [| p rest IH]; intros i ok skip out w.
  - exists 0, ok, skip, [], w. simpl. rewrite app_nil_r.
    repeat split; auto with lia.
  - destruct (conv_total p w) as (f1 & [[res info] w1] & Hconv).
    destruct res.
    + destruct (IH (i + 1) (ok + 1) skip
                  (out ++ [LineOK i total (OsPath.basename os_flavour p)
                             (OsPath.basename os_flavour info)])%list w1)
        as (f2 & ok' & skip' & lines & w' & Hrun & Hsum & Hsrc & Hall & Hok & Hskip).
      exists (f1 `max` f2), ok', skip',
        (LineOK i total (OsPath.basename os_flavour p)
           (OsPath.basename os_flavour info) :: lines), w'.
      split; [| split; [| split; [| split; [| split]]]].
      * intros f Hf. simpl. rewrite Hconv by lia. rewrite Hrun by lia.
        by rewrite <- app_assoc.
      * simpl. lia.
      * replace (i + 1) with (S i) in Hsrc by lia.
        transitivity ((i, OsPath.basename os_flavour p) :: omap line_source lines);
          [done |].
        by rewrite Hsrc.
      * by constructor.
      * rewrite filter_cons_True by done. simpl. lia.
      * rewrite filter_cons_False by done. lia.
    + destruct (IH (i + 1) ok (skip + 1)
                  (out ++ [LineSKIP i total (OsPath.basename os_flavour p) info])%list
                  w1)
        as (f2 & ok' & skip' & lines & w' & Hrun & Hsum & Hsrc & Hall & Hok & Hskip).
      exists (f1 `max` f2), ok', skip',
        (LineSKIP i total (OsPath.basename os_flavour p) info :: lines), w'.
      split; [| split; [| split; [| split; [| split]]]].
      * intros f Hf. simpl. rewrite Hconv by lia. rewrite Hrun by lia.
        by rewrite <- app_assoc.
      * simpl. lia.
      * replace (i + 1) with (S i) in Hsrc by lia.
        transitivity ((i, OsPath.basename os_flavour p) :: omap line_source lines);
          [done |].
        by rewrite Hsrc.
      * by constructor.
      * rewrite filter_cons_False by done. lia.
      * rewrite filter_cons_True by done. simpl. lia.
Qed.

Hypothesis conv_returns :
  ∀ p w, ∃ r, returns_with_fuel (λ f, conv f p w) r.

Lemma length_row_results (rows : list (World * (bool * string) * World)) :
  length (row_results rows) = length rows.
Proof. unfold row_results. by rewrite length_fmap. Qed.

Lemma row_results_cons (wk : World) (r : bool * string) (wk' : World)
    (rows : list (World * (bool * string) * World)) :
  row_results ((wk, r, wk') :: rows) = r :: row_results rows.
Proof. done. Qed.

Lemma count_ok_cons (r : bool * string) (results : list (bool * string)) :
  count_ok (r :: results) = Nat.b2n r.1 + count_ok results.
Proof.
  unfold count_ok. destruct r as [[] info].
  - by rewrite filter_cons_True.
  - by rewrite filter_cons_False.
Qed.

Lemma count_skip_cons (r : bool * string) (results : list (bool * string)) :
  count_skip (r :: results) = Nat.b2n (negb r.1) + count_skip results.
Proof.
  unfold count_skip. destruct r as [[] info].
  - by rewrite filter_cons_False.
  - by rewrite filter_cons_True.
Qed.

Lemma count_ok_skip (results : list (bool * string)) :
  count_ok results + count_skip results = length results.
Proof.
  unfold count_ok, count_skip.
  induction results as [| [[] info] results IH]; [done | |].
  - rewrite filter_cons_True, filter_cons_False by done. simpl. lia.
  - rewrite filter_cons_False, filter_cons_True by done. simpl. lia.
Qed.

Lemma batch_rows_length (targets : list string) (w : World)
    (rows : list (World * (bool * string) * World)) (w' : World) :
  batch_rows conv targets w rows w' → length rows = length targets.
Proof. induction 1 as [| p rest w r w1 rows w' _ _ IH]; [done |]. simpl. by rewrite IH. Qed.

(** Row [k] is the conversion of target [k] in the world of that row. *)
Lemma batch_rows_lookup (targets : list string) (w : World)
    (rows : list (World * (bool * string) * World)) (w' : World) :
  batch_rows conv targets w rows w' →
  ∀ (k : nat) (p : string) (wk : World) (r : bool * string) (wk' : World),
    targets !! k = Some p → rows !! k = Some (wk, r, wk') →
    returns_with_fuel (λ f, conv f p wk) (r, wk').
Proof.
  induction 1 as [| p0 rest w r0 w1 rows w' Hconv _ IH]; intros k p wk r wk' Hp Hrow.
  - by rewrite lookup_nil in Hp.
  - destruct k as [| k]; simpl in Hp, Hrow.
    + injection Hp as <-. by injection Hrow as <- <- <-.
    + by eapply IH.
Qed.

Lemma batch_rows_failures (targets : list string) (w : World)
    (rows : list (World * (bool * string) * World)) (w' : World) :
  (∀ f p w0 e, Image_open w0 p = Raise e →
     conv f p w0 = Some (handle (Raise e), w0)) →
  (∀ f p w0 im, Image_open w0 p = Return im → getattr_is_animated im = true →
     conv f p w0 = Some ((false, "アニメGIFのためスキップ"), w0)) →
  batch_rows conv targets w rows w' →
  failures_are_skips targets rows.
Proof.
  intros Hraise Hanim Hrows k p wk r wk' Hp Hrow.
  destruct (batch_rows_lookup _ _ _ _ Hrows k p wk r wk' Hp Hrow) as [f0 Hconv].
  specialize (Hconv f0 (le_n f0)). split.
  - intros e Hopen. rewrite (Hraise f0 p wk e Hopen) in Hconv.
    injection Hconv as <- <-. split; [done |]. by destruct e.
  - intros im Hopen Ha. rewrite (Hanim f0 p wk im Hopen Ha) in Hconv.
    by injection Hconv as <- <-.
Qed.

(** The lines of the results, read back. *)
Lemma rows_lines_report (total : nat) (targets : list string) :
  ∀ (i : nat) (results : list (bool * string)),
    length results = length targets →
    line_report <$> rows_lines total i targets results
    = Some <$> zip_with (row_report total) (seq i (length targets)) results
    ∧ length (rows_lines total i targets results) = length targets.
Proof.
  induction targets as [| p rest IH]; intros i [| r results] Hlen;
    try done; simpl in Hlen.
  destruct (IH (S i) results) as [Hreport Hlines]; [lia |].
  split.
  - cbn [rows_lines length seq zip_with]. rewrite !fmap_cons, Hreport.
    f_equal. unfold row_line, row_report. by destruct r as [[] info].
  - cbn [rows_lines length]. by rewrite Hlines.
Qed.

(** The loop runs the conversions one after the other, whatever they
    return, and prints and counts what they returned. *)
Lemma process_loop_rows (total : nat) (targets : list string) :
  ∀ (i ok skip : nat) (out : list Line) (w : World),
  ∃ (rows : list (World * (bool * string) * World)) (w' : World),
    batch_rows conv targets w rows w'
    ∧ returns_with_fuel
        (λ f, process_loop (conv f) total targets i ok skip out w)
        (ok + count_ok (row_results rows), skip + count_skip (row_results rows),
         (out ++ rows_lines total i targets (row_results rows))%list, w').
Proof.
  induction targets as [| p rest IH]; intros i ok skip out w.
  - exists [], w. split; [constructor |]. exists 0. intros f _. simpl.
    unfold count_ok, count_skip. simpl. by rewrite !Nat.add_0_r, app_nil_r.
  - destruct (conv_returns p w) as ([[res info] w1] & f1 & Hconv).
    destruct res.
    + destruct (IH (i + 1) (ok + 1) skip
                  (out ++ [LineOK i total (OsPath.basename os_flavour p)
                             (OsPath.basename os_flavour info)])%list w1)
        as (rows & w' & Hrows & f2 & Hrun).
      exists ((w, (true, info), w1) :: rows), w'.
      split; [constructor; [by exists f1 | done] |].
      exists (f1 `max` f2). intros f Hf.
      cbn [process_loop]. rewrite Hconv by lia. rewrite Hrun by lia.
      rewrite row_results_cons, count_ok_cons, count_skip_cons.
      cbn [rows_lines fst Nat.b2n negb]. replace (i + 1) with (S i) by lia.
      rewrite <- app_assoc, <- !Nat.add_assoc. reflexivity.
    + destruct (IH (i + 1) ok (skip + 1)
                  (out ++ [LineSKIP i total (OsPath.basename os_flavour p) info])%list
                  w1)
        as (rows & w' & Hrows & f2 & Hrun).
      exists ((w, (false, info), w1) :: rows), w'.
      split; [constructor; [by exists f1 | done] |].
      exists (f1 `max` f2). intros f Hf.
      cbn [process_loop]. rewrite Hconv by lia. rewrite Hrun by lia.
      rewrite row_results_cons, count_ok_cons, count_skip_cons.
      cbn [rows_lines fst Nat.b2n negb]. replace (i + 1) with (S i) by lia.
      rewrite <- app_assoc, <- !Nat.add_assoc. reflexivity.
Qed.

End Batch.

Section BatchPrograms.
Context `{Pillow} `{Host}.
Local Open Scope nat_scope.

Lemma process_targets_gray_spec (targets : list string) (w : World) :
  batch_spec GrayscaleTool.OUTPUT_DIR targets
    (λ f, GrayscaleTool.process_targets f targets w).
Proof.
  destruct (process_loop_total GrayscaleTool.convert_to_gray
              convert_to_gray_total (length targets) targets 1 0 0 [] w)
    as (f0 & ok & skip & lines & w' & Hrun & Hsum & Hsrc & Hall & Hok & Hskip).
  exists f0, ok, skip, lines, w'.
  split; [| by auto with lia].
  intros f Hf. unfold GrayscaleTool.process_targets. by rewrite Hrun.
Qed.

Lemma process_targets_adjust_spec (targets : list string) (cfg : Config) (w : World) :
  batch_spec AdjustTool.OUTPUT_DIR targets
    (λ f, AdjustTool.process_targets f targets cfg w).
Proof.
  destruct (process_loop_total (λ f p, AdjustTool.convert_one f p cfg)
              (λ p w, convert_one_total p cfg w) (length targets) targets 1 0 0 [] w)
    as (f0 & ok & skip & lines & w' & Hrun & Hsum & Hsrc & Hall & Hok & Hskip).
  exists f0, ok, skip, lines, w'.
  split; [| by auto with lia].
  intros f Hf. unfold AdjustTool.process_targets. by rewrite Hrun.
Qed.

Lemma convert_to_gray_returns (p : string) (w : World) :
  ∃ r, returns_with_fuel (λ f, GrayscaleTool.convert_to_gray f p w) r.
Proof. destruct (convert_to_gray_total p w) as (f0 & r & Hr). by exists r, f0. Qed.

Lemma convert_one_returns (cfg : Config) (p : string) (w : World) :
  ∃ r, returns_with_fuel (λ f, AdjustTool.convert_one f p cfg w) r.
Proof. destruct (convert_one_total p cfg w) as (f0 & r & Hr). by exists r, f0. Qed.

Lemma convert_to_gray_failures (targets : list string) (w : World)
    (rows : list (World * (bool * string) * World)) (w' : World) :
  batch_rows GrayscaleTool.convert_to_gray targets w rows w' →
  failures_are_skips targets rows.
Proof.
  apply batch_rows_failures.
  - intros f p w0 e Hopen.
    by destruct (unopened_inputs_are_skipped f p AdjustTool.default_cfg w0 e Hopen)
      as (? & _).
  - intros f p w0 im Hopen Hanim.
    by destruct (animated_skip f p AdjustTool.default_cfg w0 im Hopen Hanim)
      as (? & _).
Qed.

Lemma convert_one_failures (cfg : Config) (targets : list string) (w : World)
    (rows : list (World * (bool * string) * World)) (w' : World) :
  batch_rows (λ f p, AdjustTool.convert_one f p cfg) targets w rows w' →
  failures_are_skips targets rows.
Proof.
  apply batch_rows_failures.
  - intros f p w0 e Hopen.
    by destruct (unopened_inputs_are_skipped f p cfg w0 e Hopen) as (_ & ? & _).
  - intros f p w0 im Hopen Hanim.
    by destruct (animated_skip f p cfg w0 im Hopen Hanim) as (_ & ?).
Qed.


End BatchPrograms.

(** ** The target collector *)

Section Collector.
Context `{Host}.

Lemma collect_add_ok (fp : string) (acc : list string * gset string) :
  acc_ok acc → is_image_file os_flavour fp = true → fp ∉ acc.2 →
  acc_ok (collect_add fp acc)
  ∧ ∀ x, x ∈ (collect_add fp acc).1 ↔ x ∈ acc.1 ∨ x = fp.
Proof.
  intros (Hnd & Hseen & Himg) Hfp Hnew. unfold collect_add, acc_ok. simpl.
  split; [split; [| split] |].
  - apply NoDup_app. split; [done |]. split; [| apply NoDup_singleton].
    intros x Hx ->%list_elem_of_singleton. by apply Hnew, Hseen.
  - intros x. rewrite elem_of_union, elem_of_singleton, elem_of_app,
      list_elem_of_singleton, Hseen. tauto.
  - apply Forall_app. split; [done |]. by apply Forall_singleton.
  - intros x. by rewrite elem_of_app, list_elem_of_singleton.
Qed.

(** A fold whose steps keep the invariant and add the paths [Q a]. *)
Lemma foldl_acc_ok {A : Type}
    (step : list string * gset string → A → list string * gset string)
    (Q : A → string → Prop) :
  (∀ acc a, acc_ok acc →
     acc_ok (step acc a) ∧ ∀ x, x ∈ (step acc a).1 ↔ x ∈ acc.1 ∨ Q a x) →
  ∀ (l : list A) (acc : list string * gset string),
    acc_ok acc →
    acc_ok (foldl step acc l)
    ∧ ∀ x, x ∈ (foldl step acc l).1 ↔ x ∈ acc.1 ∨ ∃ a, a ∈ l ∧ Q a x.
Proof.
  intros Hstep l. induction l as [| a l IH]; intros acc Hacc; simpl.
  - split; [done |]. intros x. split; [by left |].
    intros [Hx | (a & Ha & _)]; [done | by apply elem_of_nil in Ha].
  - destruct (Hstep acc a Hacc) as [Hacc' Hmem].
    destruct (IH (step acc a) Hacc') as [Hfin Hmem'].
    split; [done |]. intros x. rewrite Hmem', Hmem. split.
    + intros [[Hx | Hq] | (b & Hb & Hq)];
        [by left | right; exists a; split; [left | done]
         | right; exists b; split; [by right | done]].
    + intros [Hx | (b & Hb & Hq)]; [by left; left |].
      apply elem_of_cons in Hb as [-> | Hb]; [by left; right |].
      right. by exists b.
Qed.

Lemma collect_walk_file_ok (root : string) (acc : list string * gset string)
    (fn : string) :
  acc_ok acc →
  acc_ok (collect_walk_file root acc fn)
  ∧ ∀ x, x ∈ (collect_walk_file root acc fn).1
         ↔ x ∈ acc.1
           ∨ (x = norm (OsPath.join os_flavour root fn)
              ∧ is_image_file os_flavour x = true).
Proof.
  intros Hacc. unfold collect_walk_file.
  set (fp := norm (OsPath.join os_flavour root fn)).
  destruct (is_image_file os_flavour fp) eqn:Himg; simpl.
  - case_bool_decide as Hnew.
    + destruct (collect_add_ok fp acc Hacc Himg Hnew) as [Hok Hmem].
      split; [done |]. intros x. rewrite Hmem. split.
      * intros [Hx | ->]; [by left | by right].
      * intros [Hx | [-> _]]; [by left | by right].
    + split; [done |]. intros x. split; [by left |].
      intros [Hx | [-> _]]; [done |].
      destruct Hacc as (_ & Hseen & _). apply Hseen.
      by destruct (decide (fp ∈ acc.2)).
  - split; [done |]. intros x. split; [by left |].
    intros [Hx | [-> Hx]]; [done | congruence].
Qed.

Lemma collect_walk_entry_ok (acc : list string * gset string)
    (entry : string * list string * list string) :
  acc_ok acc →
  acc_ok (collect_walk_entry acc entry)
  ∧ ∀ x, x ∈ (collect_walk_entry acc entry).1
         ↔ x ∈ acc.1
           ∨ ∃ fn, fn ∈ entry.2
                   ∧ x = norm (OsPath.join os_flavour entry.1.1 fn)
                   ∧ is_image_file os_flavour x = true.
Proof.
  destruct entry as [[root dirs] files]. unfold collect_walk_entry. simpl.
  apply (foldl_acc_ok (collect_walk_file root)
           (λ fn x, x = norm (OsPath.join os_flavour root fn)
                    ∧ is_image_file os_flavour x = true)).
  intros acc' fn. apply collect_walk_file_ok.
Qed.

Lemma collect_input_ok (w : World) (acc : list string * gset string) (p : string) :
  acc_ok acc →
  acc_ok (collect_input w acc p)
  ∧ ∀ x, x ∈ (collect_input w acc p).1 ↔ x ∈ acc.1 ∨ offered w p x.
Proof.
  intros Hacc. unfold collect_input, offered.
  case_bool_decide as Hempty.
  { split; [done |]. intros x. split; [by left |]. by intros [Hx | [Hne _]]. }
  destruct (isdir w (norm p)) eqn:Hdir.
  - destruct (foldl_acc_ok collect_walk_entry
                (λ entry x, ∃ fn, fn ∈ entry.2
                   ∧ x = norm (OsPath.join os_flavour entry.1.1 fn)
                   ∧ is_image_file os_flavour x = true)
                collect_walk_entry_ok (walk w (norm p)) acc Hacc) as [Hok Hmem].
    split; [done |]. intros x. rewrite Hmem. unfold from_walk. split.
    + intros [Hx | (entry & He & fn & Hfn & Hx & Himg)]; [by left |].
      right. split; [done |]. by exists entry, fn.
    + intros [Hx | (_ & entry & fn & He & Hfn & Hx & Himg)]; [by left |].
      right. exists entry. split; [done |]. by exists fn.
  - destruct (isfile w (norm p)) eqn:Hfile; simpl.
    + destruct (is_image_file os_flavour (norm p)) eqn:Himg.
      * case_bool_decide as Hnew.
        -- destruct (collect_add_ok (norm p) acc Hacc Himg Hnew) as [Hok Hmem].
           split; [done |]. intros x. rewrite Hmem. split.
           ++ intros [Hx | ->]; [by left | by right].
           ++ intros [Hx | (_ & _ & _ & ->)]; [by left | by right].
        -- split; [done |]. intros x. split; [by left |].
           intros [Hx | (_ & _ & _ & ->)]; [done |].
           destruct Hacc as (_ & Hseen & _). apply Hseen.
           by destruct (decide (norm p ∈ acc.2)).
      * split; [done |]. intros x. split; [by left |].
        by intros [Hx | (_ & _ & ? & _)].
    + split; [done |]. intros x. split; [by left |].
      by intros [Hx | (_ & ? & _)].
Qed.

(** C7: [collect_targets] returns a list sorted in the order of strings,
    without duplicate (normalised) paths, all of whose extensions,
    lower-cased, are in [IMAGE_EXTS]; it holds exactly the image files
    found by walking the directories given and the files given whose
    extension is recognised. *)
Theorem collect_targets_sorted_unique_images (w : World) (inputs : list string) :
  StronglySorted String.le (collect_targets w inputs)
  ∧ NoDup (collect_targets w inputs)
  ∧ Forall (λ x, Py.lower (OsPath.splitext os_flavour x).2 ∈ IMAGE_EXTS)
      (collect_targets w inputs)
  ∧ (∀ x, x ∈ collect_targets w inputs ↔ ∃ p, p ∈ inputs ∧ offered w p x).
Proof.
  assert (acc_ok ([], ∅)) as Hinit.
  { split; [apply NoDup_nil_2 |]. split; [| done].
    intros x. simpl. split; [by intros ?%elem_of_empty | by intros ?%elem_of_nil]. }
  destruct (foldl_acc_ok (collect_input w) (offered w)
              (collect_input_ok w) inputs ([], ∅) Hinit)
    as [(Hnd & _ & Himg) Hmem].
  unfold collect_targets.
  pose proof (merge_sort_Permutation String.le
                (foldl (collect_input w) ([], ∅) inputs).1) as Hperm.
  split; [apply (StronglySorted_merge_sort _) |].
  split; [by rewrite Hperm |].
  split.
  - rewrite Hperm. eapply Forall_impl; [exact Himg |].
    intros x Hx. by apply bool_decide_eq_true in Hx.
  - intros x. rewrite Hperm, Hmem, elem_of_nil. split.
    + by intros [[] | Hx].
    + by right.
Qed.

End Collector.

(** ** Entry points *)

Section EntryPoints.
Context `{Pillow} `{Host}.

Lemma collect_targets_nil (w : World) : collect_targets w [] = [].
Proof. reflexivity. Qed.

(** C8, as the programs have it: the two batch programs collect the
    targets from their arguments, launch the GUI when none is collected
    (so also without arguments) and run the batch over the collected
    targets otherwise; the preview program launches the GUI whatever its
    arguments are. *)
Theorem entry_points_by_collected_targets (argv : list string) (w : World) :
  (collect_targets w argv = [] →
     ∀ fuel, GrayscaleTool.run_cli fuel argv w = Some RunGui
             ∧ AdjustTool.run_cli fuel argv w = Some RunGui)
  ∧ (collect_targets w argv ≠ [] →
       batch_spec GrayscaleTool.OUTPUT_DIR (collect_targets w argv)
         (λ f, GrayscaleTool.run_cli f argv w)
       ∧ batch_spec AdjustTool.OUTPUT_DIR (collect_targets w argv)
           (λ f, AdjustTool.run_cli f argv w))
  ∧ (∀ fuel, GrayscaleTool.run_cli fuel [] w = Some RunGui
             ∧ AdjustTool.run_cli fuel [] w = Some RunGui)
  ∧ PreviewTool.main argv = RunGui.
Proof.
  split; [| split; [| split]].
  - intros Hnil fuel. unfold GrayscaleTool.run_cli, AdjustTool.run_cli.
    by rewrite Hnil.
  - intros Hne. unfold GrayscaleTool.run_cli, AdjustTool.run_cli.
    rewrite bool_decide_eq_false_2 by done.
    split; [apply process_targets_gray_spec | apply process_targets_adjust_spec].
  - done.
  - done.
Qed.

End EntryPoints.

(** ** The programs on the sample host *)

Lemma identity_config_is_noop_witness :
  AdjustTool.apply_adjustments sample_gray AdjustTool.default_cfg
  = Return sample_gray.
Proof.
  apply (identity_config_is_noop sample_gray AdjustTool.default_cfg).
  unfold identity_cfg. simpl.
  replace (1.0 - 1)%R with 0%R by lra. rewrite Rabs_R0.
  repeat split; lra.
Defined.


Lemma animated_inputs_are_skipped_witness :
  AdjustTool.convert_one 0 "/in/spin.gif" AdjustTool.default_cfg sample_world
  = Some ((false, "アニメGIFのためスキップ"), sample_world).
Proof.
  apply (animated_inputs_are_skipped 0 "/in/spin.gif" AdjustTool.default_cfg
           sample_world sample_animation); reflexivity.
Defined.

(** C8 as stated fails: the preview program launches the GUI also when
    it is given a path, and a batch program launches the GUI when its
    arguments yield no target. *)
Lemma not_every_program_runs_a_batch :
  ¬ cli_and_gui (λ _ argv _, Some (PreviewTool.main argv))
  ∧ ¬ cli_and_gui AdjustTool.run_cli.
Proof.
  split.
  - intros [Hbatch _].
    destruct (Hbatch ["/in/cat.png"] sample_world) as (fuel & code & out & w' & Hrun);
      [done |].
    discriminate Hrun.
  - intros [Hbatch _].
    destruct (Hbatch ["/in/notes.txt"] sample_world) as (fuel & code & out & w' & Hrun);
      [done |].
    discriminate Hrun.
Qed.

Example first_conversion :
  fst <$> GrayscaleTool.convert_to_gray 3 "/in/cat.png" sample_world
  = Some (true, "/home/user/Desktop/grayscale_output/cat_gray.png").
Proof. vm_compute. reflexivity. Qed.

Example second_conversion :
  fst <$> GrayscaleTool.convert_to_gray 3 "/in/cat.png"
    (<["/home/user/Desktop/grayscale_output/cat_gray.png" :=
         Return (ImageOps_grayscale sample_gray)]> sample_world)
  = Some (true, "/home/user/Desktop/grayscale_output/cat_gray-2.png").
Proof. vm_compute. reflexivity. Qed.

Example second_conversion_out_of_fuel :
  GrayscaleTool.convert_to_gray 1 "/in/cat.png"
    (<["/home/user/Desktop/grayscale_output/cat_gray.png" :=
         Return (ImageOps_grayscale sample_gray)]> sample_world)
  = None.
Proof. vm_compute. reflexivity. Qed.

Example batch_on_sample_world :
  run_output <$> GrayscaleTool.run_cli 3
    ["/in/spin.gif"; "/in/cat.png"; "/in/cat.png"; ""; "/in/notes.txt"] sample_world
  = Some (Some (0%Z,
            [LineOK 1 2 "cat.png" "cat_gray.png";
             LineSKIP 2 2 "spin.gif" "アニメGIFのためスキップ";
             LineRule;
             LineOutDir "/home/user/Desktop/grayscale_output";
             LineDone 1 1 2])).
Proof. vm_compute. reflexivity. Qed.

(** ** Searching in strings *)

Section StringSearch.
Local Open Scope Z_scope.

Lemma has_char_app (c : ascii) (a b : string) :
  has_char c (a ++ b) = has_char c a || has_char c b.
Proof.
  induction a as [| x a IH]; [done |].
  change (has_char c (String x (a ++ b))
          = has_char c (String x a) || has_char c b).
  simpl. rewrite IH. by rewrite orb_assoc.
Qed.

Lemma rfind_from_range (c : ascii) (s : string) (i : Z) :
  Py.rfind_from c s i = -1
  ∨ i ≤ Py.rfind_from c s i < i + Z.of_nat (String.length s).
Proof.
  revert i. induction s as [| a s IH]; intros i; simpl; [by left |].
  destruct (IH (i + 1)) as [-> | Hr].
  - simpl. case_bool_decide; [right; lia | by left].
  - destruct (0 <=? Py.rfind_from c s (i + 1)) eqn:Hpos; [right; lia |].
    case_bool_decide; [right; lia | by left].
Qed.

Lemma rfind_from_absent (c : ascii) (s : string) (i : Z) :
  has_char c s = false → Py.rfind_from c s i = -1.
Proof.
  revert i. induction s as [| a s IH]; intros i; simpl; [done |].
  intros [Ha Hs]%orb_false_iff. rewrite (IH _ Hs). simpl. by rewrite Ha.
Qed.

Lemma rfind_from_present (c : ascii) (s : string) (i : Z) :
  0 ≤ i → has_char c s = true → 0 ≤ Py.rfind_from c s i.
Proof.
  revert i. induction s as [| a s IH]; intros i Hi; simpl; [done |].
  destruct (has_char c s) eqn:Hs.
  - intros _. pose proof (IH (i + 1) ltac:(lia) eq_refl) as Hr.
    by rewrite (proj2 (Z.leb_le _ _) Hr).
  - rewrite orb_false_r. intros Ha.
    rewrite (rfind_from_absent _ _ _ Hs). simpl. rewrite Ha. lia.
Qed.

Lemma rfind_from_absent_inv (c : ascii) (s : string) (i : Z) :
  0 ≤ i → Py.rfind_from c s i = -1 → has_char c s = false.
Proof.
  intros Hi Hr. destruct (has_char c s) eqn:Hs; [| done].
  pose proof (rfind_from_present c s i Hi Hs). lia.
Qed.

Lemma rfind_from_app (c : ascii) (a b : string) (i : Z) :
  0 ≤ i →
  Py.rfind_from c (a ++ b) i
  = if has_char c b
    then Py.rfind_from c b (i + Z.of_nat (String.length a))
    else Py.rfind_from c a i.
Proof.
  revert i. induction a as [| x a IH]; intros i Hi.
  - change (EmptyString ++ b) with b. simpl. rewrite Z.add_0_r.
    destruct (has_char c b) eqn:Hb; [done |]. by apply rfind_from_absent.
  - change (String x a ++ b) with (String x (a ++ b)).
    cbn [Py.rfind_from String.length]. rewrite (IH (i + 1)) by lia.
    destruct (has_char c b) eqn:Hb; [| done].
    replace (i + 1 + Z.of_nat (String.length a))
      with (i + Z.of_nat (S (String.length a))) by lia.
    pose proof (rfind_from_present c b (i + Z.of_nat (S (String.length a)))
                  ltac:(lia) Hb) as Hr.
    by rewrite (proj2 (Z.leb_le _ _) Hr).
Qed.

(** The last occurrence splits the string. *)
Lemma rfind_from_split (c : ascii) (s : string) (i : Z) :
  0 ≤ Py.rfind_from c s i → 0 ≤ i →
  ∃ a b, s = a ++ String c b ∧ has_char c b = false
         ∧ Py.rfind_from c s i = i + Z.of_nat (String.length a).
Proof.
  revert i. induction s as [| x s IH]; intros i; simpl; [lia |].
  destruct (0 <=? Py.rfind_from c s (i + 1)) eqn:Hpos.
  - intros _ Hi. apply Z.leb_le in Hpos.
    destruct (IH (i + 1) Hpos ltac:(lia)) as (a & b & -> & Hb & Hr).
    exists (String x a), b. split; [done |]. split; [done |].
    rewrite Hr. simpl. lia.
  - case_bool_decide as Hx; [| lia]. intros _ Hi. subst x.
    exists EmptyString, s. split; [done |]. split; [| simpl; lia].
    apply (rfind_from_absent_inv c s (i + 1)); [lia |].
    apply Z.leb_gt in Hpos.
    destruct (rfind_from_range c s (i + 1)); lia.
Qed.

Lemma take_app_length (a b : string) :
  Py.take (String.length a) (a ++ b) = a.
Proof.
  induction a as [| x a IH]; [by destruct b |].
  change (String x a ++ b) with (String x (a ++ b)). simpl. by rewrite IH.
Qed.

Lemma drop_app_length (a b : string) :
  Py.drop (String.length a) (a ++ b) = b.
Proof.
  induction a as [| x a IH]; [done |].
  change (String x a ++ b) with (String x (a ++ b)). simpl. by rewrite IH.
Qed.

Lemma take_app_plus (a b : string) (k : nat) :
  Py.take (String.length a + k) (a ++ b) = a ++ Py.take k b.
Proof.
  induction a as [| x a IH]; [done |].
  change (String x a ++ b) with (String x (a ++ b)). simpl. by rewrite IH.
Qed.

Lemma drop_app_plus (a b : string) (k : nat) :
  Py.drop (String.length a + k) (a ++ b) = Py.drop k b.
Proof.
  induction a as [| x a IH]; [done |].
  change (String x a ++ b) with (String x (a ++ b)). simpl. by rewrite IH.
Qed.

Lemma slice_app_plus (a b : string) (k : Z) :
  0 ≤ k →
  Py.slice (a ++ b) (Z.of_nat (String.length a) + k)
    (Z.of_nat (String.length a) + k + 1)
  = Py.slice b k (k + 1).
Proof.
  intros Hk. unfold Py.slice.
  replace (Z.of_nat (String.length a) + k + 1 - (Z.of_nat (String.length a) + k))
    with (k + 1 - k) by lia.
  replace (Z.to_nat (Z.of_nat (String.length a) + k))
    with (String.length a + Z.to_nat k)%nat by lia.
  by rewrite drop_app_plus.
Qed.

Lemma splitext_scan_app (a b : string) (k : Z) (steps : nat) :
  0 ≤ k →
  OsPath.splitext_scan (a ++ b) (Z.of_nat (String.length a) + k) steps
  = OsPath.splitext_scan b k steps.
Proof.
  revert k. induction steps as [| n IH]; intros k Hk; simpl; [done |].
  rewrite slice_app_plus by done.
  replace (Z.of_nat (String.length a) + k + 1)
    with (Z.of_nat (String.length a) + (k + 1)) by lia.
  by rewrite IH by lia.
Qed.

(** The scan of a stem finds a character that is not a dot, or the stem
    holds dots only. *)
Lemma splitext_scan_stem (stem rest : string) :
  OsPath.splitext_scan (stem ++ rest) 0 (String.length stem)
  = negb (all_dots stem).
Proof.
  assert (∀ pre,
            OsPath.splitext_scan (pre ++ stem ++ rest)
              (Z.of_nat (String.length pre)) (String.length stem)
            = negb (all_dots stem)) as Hgen.
  { induction stem as [| x stem IH]; intros pre; [done |].
    cbn [String.length OsPath.splitext_scan all_dots].
    replace (Py.slice (pre ++ String x stem ++ rest)
               (Z.of_nat (String.length pre))
               (Z.of_nat (String.length pre) + 1))
      with (String x EmptyString).
    2:{ pose proof (slice_app_plus pre (String x stem ++ rest) 0 ltac:(lia)) as Hs.
        rewrite Z.add_0_r in Hs. rewrite Hs.
        change (String x stem ++ rest) with (String x (stem ++ rest)).
        unfold Py.slice. simpl. by destruct (stem ++ rest). }
    specialize (IH (pre ++ String x EmptyString)).
    rewrite string_app_assoc in IH.
    change (String x EmptyString ++ stem ++ rest) with (String x (stem ++ rest)) in IH.
    rewrite string_length_app in IH. simpl in IH.
    replace (Z.of_nat (String.length pre + 1)) with (Z.of_nat (String.length pre) + 1)
      in IH by lia.
    change (String x stem ++ rest) with (String x (stem ++ rest)).
    rewrite IH.
    destruct (decide (x = OsPath.extsep)) as [-> | Hx].
    - rewrite bool_decide_eq_false_2 by (by intros []).
      by rewrite bool_decide_eq_true_2.
    - rewrite bool_decide_eq_true_2 by congruence.
      by rewrite (bool_decide_eq_false_2 _ Hx). }
  exact (Hgen EmptyString).
Qed.

End StringSearch.

(** ** The last component of a path *)

Section LastComponent.
Local Open Scope Z_scope.

Lemma rfind_from_shift (c : ascii) (s : string) (i : Z) :
  0 ≤ i →
  Py.rfind_from c s i
  = if 0 <=? Py.rfind_from c s 0 then i + Py.rfind_from c s 0 else -1.
Proof.
  intros Hi. destruct (has_char c s) eqn:Hs.
  - pose proof (rfind_from_present c s 0 ltac:(lia) Hs) as H0.
    destruct (rfind_from_split c s 0 H0 ltac:(lia)) as (a & b & -> & Hb & Hr0).
    rewrite (proj2 (Z.leb_le _ _) H0), Hr0.
    rewrite !rfind_from_app by lia. cbn [has_char Py.rfind_from].
    rewrite !(bool_decide_eq_true_2 (c = c) eq_refl). cbn [orb].
    rewrite !(rfind_from_absent c b) by done.
    change (0 <=? -1) with false. cbn iota. lia.
  - by rewrite !rfind_from_absent.
Qed.

Lemma rfind_from_last (cs : list ascii) (d : string) (i : Z) :
  0 ≤ i → Py.ends_with_any cs d = true →
  ∃ c, c ∈ cs ∧ Py.rfind_from c d i = i + Z.of_nat (String.length d) - 1.
Proof.
  revert i. induction d as [| x d IH]; intros i Hi; [done |].
  destruct d as [| y d].
  - simpl. intros Hx%bool_decide_eq_true. exists x. split; [done |].
    rewrite bool_decide_eq_true_2 by done. lia.
  - intros Hend. change (Py.ends_with_any cs (String y d) = true) in Hend.
    destruct (IH (i + 1) ltac:(lia) Hend) as (c & Hc & Hr).
    exists c. split; [done |].
    change (Py.rfind_from c (String x (String y d)) i)
      with (if 0 <=? Py.rfind_from c (String y d) (i + 1)
            then Py.rfind_from c (String y d) (i + 1)
            else if bool_decide (x = c) then i else -1).
    rewrite Hr.
    rewrite (proj2 (Z.leb_le _ _)); cbn [String.length]; lia.
Qed.

(** The index of the last separator, as [_splitext] and [basename]
    compute it. *)
Lemma sep_index_prefix (fl : flavour) (d f : string) :
  dir_prefix fl d → sep_free fl f →
  match OsPath.altsep fl with
  | Some a => Z.max (Py.rfind (d ++ f) (OsPath.sep fl)) (Py.rfind (d ++ f) a)
  | None => Py.rfind (d ++ f) (OsPath.sep fl)
  end = Z.of_nat (String.length d) - 1.
Proof.
  intros Hd Hf. unfold Py.rfind.
  assert (∀ c, c ∈ OsPath.seps fl →
               Py.rfind_from c (d ++ f) 0 = Py.rfind_from c d 0) as Hdf.
  { intros c Hc. rewrite rfind_from_app by lia. by rewrite (Hf c Hc). }
  assert (∀ c, Py.rfind_from c d 0 ≤ Z.of_nat (String.length d) - 1) as Hle.
  { intros c. destruct (rfind_from_range c d 0); lia. }
  destruct Hd as [-> | Hend].
  - destruct fl; simpl.
    + rewrite Hdf by (unfold OsPath.seps; simpl; by left). simpl. lia.
    + rewrite (Hdf "\"%char) by (unfold OsPath.seps; simpl; by left).
      rewrite (Hdf "/"%char) by (unfold OsPath.seps; simpl; by right; left).
      simpl. lia.
  - destruct (rfind_from_last _ d 0 ltac:(lia) Hend) as (c & Hc & Hr).
    destruct fl.
    + assert (c = "/"%char) as ->.
      { unfold OsPath.seps in Hc. simpl in Hc. by apply list_elem_of_singleton in Hc. }
      simpl. rewrite Hdf by (unfold OsPath.seps; simpl; by left). lia.
    + assert (c = "\"%char ∨ c = "/"%char) as Hcases.
      { unfold OsPath.seps in Hc. simpl in Hc.
        apply elem_of_cons in Hc as [-> | ->%list_elem_of_singleton]; auto. }
      simpl. rewrite (Hdf "\"%char) by (unfold OsPath.seps; simpl; by left).
      rewrite (Hdf "/"%char) by (unfold OsPath.seps; simpl; by right; left).
      pose proof (Hle "/"%char). pose proof (Hle "\"%char).
      destruct Hcases as [-> | ->]; lia.
Qed.

Lemma sep_index_free (fl : flavour) (f : string) :
  sep_free fl f →
  match OsPath.altsep fl with
  | Some a => Z.max (Py.rfind f (OsPath.sep fl)) (Py.rfind f a)
  | None => Py.rfind f (OsPath.sep fl)
  end = -1.
Proof.
  intros Hf.
  pose proof (sep_index_prefix fl EmptyString f (or_introl eq_refl) Hf) as H.
  exact H.
Qed.

(** [splitext] only looks at the last component of a path. *)
Lemma splitext_last_component (fl : flavour) (d f : string) :
  dir_prefix fl d → sep_free fl f →
  OsPath.splitext fl (d ++ f)
  = (d ++ (OsPath.splitext fl f).1, (OsPath.splitext fl f).2).
Proof.
  intros Hd Hf. unfold OsPath.splitext, OsPath._splitext.
  rewrite (sep_index_prefix fl d f Hd Hf), (sep_index_free fl f Hf).
  unfold Py.rfind. rewrite rfind_from_app by lia.
  destruct (has_char OsPath.extsep f) eqn:Hdot.
  - pose proof (rfind_from_present _ f 0 ltac:(lia) Hdot) as Hk.
    rewrite (rfind_from_shift _ f (0 + Z.of_nat (String.length d))) by lia.
    rewrite (proj2 (Z.leb_le _ _) Hk).
    set (k := Py.rfind_from OsPath.extsep f 0) in *.
    rewrite (proj2 (Z.ltb_lt _ _)) by lia.
    rewrite (proj2 (Z.ltb_lt (-1) k)) by lia.
    replace (Z.of_nat (String.length d) - 1 + 1)
      with (Z.of_nat (String.length d) + 0) by lia.
    rewrite splitext_scan_app by lia.
    replace (Z.to_nat (0 + Z.of_nat (String.length d) + k
                       - (Z.of_nat (String.length d) + 0)))
      with (Z.to_nat (k - (-1 + 1))) by lia.
    replace (-1 + 1) with 0 by lia.
    destruct (OsPath.splitext_scan f 0 (Z.to_nat (k - 0))); simpl; [| done].
    replace (Z.to_nat (0 + Z.of_nat (String.length d) + k))
      with (String.length d + Z.to_nat k)%nat by lia.
    by rewrite take_app_plus, drop_app_plus.
  - rewrite (rfind_from_absent _ f 0 Hdot).
    destruct (rfind_from_range OsPath.extsep d 0) as [Hr | Hr].
    + rewrite Hr. rewrite (proj2 (Z.ltb_ge _ _)) by lia. done.
    + rewrite (proj2 (Z.ltb_ge _ _)) by lia. done.
Qed.

(** A name with a last dot: the text after it is the extension unless
    only dots come before it. *)
Lemma splitext_dotted (fl : flavour) (stem e : string) :
  has_char OsPath.extsep e = false →
  sep_free fl (stem ++ String OsPath.extsep e) →
  OsPath.splitext fl (stem ++ String OsPath.extsep e)
  = if all_dots stem then (stem ++ String OsPath.extsep e, EmptyString)
    else (stem, String OsPath.extsep e).
Proof.
  intros He Hf. unfold OsPath.splitext, OsPath._splitext.
  rewrite (sep_index_free fl _ Hf).
  unfold Py.rfind. rewrite rfind_from_app by lia.
  cbn [has_char]. rewrite bool_decide_eq_true_2 by done.
  cbn [orb Py.rfind_from]. rewrite (rfind_from_absent _ e _ He).
  change (0 <=? -1) with false. cbn iota.
  rewrite bool_decide_eq_true_2 by done.
  rewrite (proj2 (Z.ltb_lt _ _)) by lia.
  replace (-1 + 1) with 0 by lia.
  replace (Z.to_nat (0 + Z.of_nat (String.length stem) - 0))
    with (String.length stem) by lia.
  rewrite splitext_scan_stem.
  replace (Z.to_nat (0 + Z.of_nat (String.length stem)))
    with (String.length stem) by lia.
  destruct (all_dots stem); simpl; [done |].
  by rewrite take_app_length, drop_app_length.
Qed.

(** A name without dot has no extension. *)
Lemma splitext_dotless (fl : flavour) (f : string) :
  has_char OsPath.extsep f = false → sep_free fl f →
  OsPath.splitext fl f = (f, EmptyString).
Proof.
  intros Hdot Hf. unfold OsPath.splitext, OsPath._splitext.
  rewrite (sep_index_free fl _ Hf).
  unfold Py.rfind. by rewrite (rfind_from_absent _ f 0 Hdot).
Qed.

End LastComponent.

(** ** Names built from a source name *)

Section BuiltNames.
Local Open Scope Z_scope.

Lemma string_app_nil_r (s : string) : s ++ EmptyString = s.
Proof.
  induction s as [| x s IH]; [done |].
  change (String x (s ++ EmptyString) = String x s). by rewrite IH.
Qed.

Lemma all_dots_app (a b : string) : all_dots (a ++ b) = all_dots a && all_dots b.
Proof.
  induction a as [| x a IH]; [done |].
  change (all_dots (String x (a ++ b)) = all_dots (String x a) && all_dots b).
  simpl. rewrite IH. by rewrite andb_assoc.
Qed.

Lemma sep_free_app (fl : flavour) (a b : string) :
  sep_free fl (a ++ b) ↔ sep_free fl a ∧ sep_free fl b.
Proof.
  unfold sep_free. split.
  - intros H. split; intros c Hc; specialize (H c Hc);
      rewrite has_char_app in H; by apply orb_false_iff in H as [? ?].
  - intros [Ha Hb] c Hc. rewrite has_char_app, (Ha c Hc), (Hb c Hc). done.
Qed.

Lemma sep_free_cons (fl : flavour) (x : ascii) (s : string) :
  x ∉ OsPath.seps fl → sep_free fl s → sep_free fl (String x s).
Proof.
  intros Hx Hs c Hc. simpl. rewrite (Hs c Hc).
  rewrite bool_decide_eq_false_2; [done |]. by intros ->.
Qed.

(** A name is its stem followed by its extension, and a text without
    dot and separator put between the two leaves the extension as it
    is. *)
Lemma splitext_insert (fl : flavour) (f mid : string) :
  sep_free fl f → sep_free fl mid → has_char OsPath.extsep mid = false →
  f = (OsPath.splitext fl f).1 ++ (OsPath.splitext fl f).2
  ∧ sep_free fl ((OsPath.splitext fl f).1 ++ mid ++ (OsPath.splitext fl f).2)
  ∧ OsPath.splitext fl
      ((OsPath.splitext fl f).1 ++ mid ++ (OsPath.splitext fl f).2)
    = ((OsPath.splitext fl f).1 ++ mid, (OsPath.splitext fl f).2).
Proof.
  intros Hf Hmid Hdot.
  destruct (has_char OsPath.extsep f) eqn:Hfdot.
  - pose proof (rfind_from_present _ f 0 ltac:(lia) Hfdot) as Hk.
    destruct (rfind_from_split _ f 0 Hk ltac:(lia)) as (a & b & -> & Hb & _).
    rewrite (splitext_dotted fl a b Hb Hf).
    apply sep_free_app in Hf as [Ha Hb'].
    destruct (all_dots a) eqn:Hdots; simpl.
    + rewrite !string_app_nil_r. split; [done |].
      rewrite string_app_assoc.
      change (String OsPath.extsep b ++ mid) with (String OsPath.extsep (b ++ mid)).
      assert (sep_free fl (a ++ String OsPath.extsep (b ++ mid))) as Hall.
      { apply sep_free_app. split; [done |].
        intros c Hc. specialize (Hb' c Hc). simpl in *.
        apply orb_false_iff in Hb' as [Hx Hb'].
        by rewrite Hx, has_char_app, Hb', (Hmid c Hc). }
      split; [done |].
      rewrite splitext_dotted; [by rewrite Hdots | | done].
      by rewrite has_char_app, Hb, Hdot.
    + split; [done |].
      rewrite <- (string_app_assoc a mid).
      assert (sep_free fl ((a ++ mid) ++ String OsPath.extsep b)) as Hall.
      { apply sep_free_app. split; [| done]. by apply sep_free_app. }
      split; [done |].
      rewrite splitext_dotted by done.
      by rewrite all_dots_app, Hdots.
  - rewrite (splitext_dotless fl f Hfdot Hf). simpl.
    rewrite !string_app_nil_r. split; [done |].
    assert (sep_free fl (f ++ mid)) as Hall by (by apply sep_free_app).
    split; [done |].
    apply splitext_dotless; [| done].
    by rewrite has_char_app, Hfdot, Hdot.
Qed.

(** The decimal digits of a number hold no other character. *)
Lemma pretty_N_go_has_char (c : ascii) (x : N) (s : string) :
  (∀ y, pretty_N_char y ≠ c) → has_char c s = false →
  has_char c (pretty_N_go x s) = false.
Proof.
  intros Hc. revert s. induction (N.lt_wf_0 x) as [x _ IH]; intros s Hs.
  assert (x = 0 ∨ 0 < x)%N as [-> | Hpos] by lia.
  - by rewrite pretty_N_go_0.
  - rewrite pretty_N_go_step by done. apply IH; [by apply N.div_lt |].
    simpl. rewrite Hs. by rewrite bool_decide_eq_false_2.
Qed.

Lemma pretty_nat_has_char (c : ascii) (n : nat) :
  (∀ y, pretty_N_char y ≠ c) → has_char c (pretty n) = false.
Proof.
  intros Hc. unfold pretty, pretty_nat, pretty, pretty_N.
  case_decide.
  - simpl. rewrite bool_decide_eq_false_2; [done |]. exact (Hc 0%N).
  - by apply pretty_N_go_has_char.
Qed.

Lemma digits_not_dot (y : N) : pretty_N_char y ≠ OsPath.extsep.
Proof. unfold pretty_N_char. by repeat case_match. Qed.

Lemma digits_not_sep (fl : flavour) (c : ascii) (y : N) :
  c ∈ OsPath.seps fl → pretty_N_char y ≠ c.
Proof.
  intros Hc.
  assert (c = "/"%char ∨ c = "\"%char) as [-> | ->].
  { destruct fl; unfold OsPath.seps in Hc; simpl in Hc.
    - apply list_elem_of_singleton in Hc. auto.
    - apply elem_of_cons in Hc as [-> | ->%list_elem_of_singleton]; auto. }
  all: unfold pretty_N_char; by repeat case_match.
Qed.

(** The text put between stem and extension for the number [n]. *)
Lemma numbered_mid (fl : flavour) (suffix : string) (n : nat) :
  sep_free fl suffix → has_char OsPath.extsep suffix = false →
  sep_free fl (suffix ++ "-" ++ pretty n)
  ∧ has_char OsPath.extsep (suffix ++ "-" ++ pretty n) = false.
Proof.
  intros Hs Hdot. split.
  - apply sep_free_app. split; [done |].
    change ("-" ++ pretty n) with (String "-" (pretty n)).
    intros c Hc. simpl.
    rewrite (pretty_nat_has_char c n) by (intros y; by apply (digits_not_sep fl)).
    rewrite bool_decide_eq_false_2; [done |].
    intros <-. destruct fl; unfold OsPath.seps in Hc; simpl in Hc.
    + by apply list_elem_of_singleton in Hc.
    + by apply elem_of_cons in Hc as [? | ?%list_elem_of_singleton].
  - rewrite has_char_app, Hdot.
    change ("-" ++ pretty n) with (String "-" (pretty n)). simpl.
    by rewrite (pretty_nat_has_char _ n digits_not_dot).
Qed.

Lemma ends_with_any_snoc (cs : list ascii) (s : string) (c : ascii) :
  c ∈ cs → Py.ends_with_any cs (s ++ String c EmptyString) = true.
Proof.
  intros Hc. induction s as [| x s IH].
  - simpl. by apply bool_decide_eq_true_2.
  - change (String x s ++ String c EmptyString)
      with (String x (s ++ String c EmptyString)).
    destruct (s ++ String c EmptyString) eqn:Hs; [by destruct s | exact IH].
Qed.

(** Joining a directory and a name without separator puts the name
    after the directory. *)
Lemma join_sep_free (fl : flavour) (out b : string) :
  sep_free fl b →
  ∃ d, dir_prefix fl d ∧ OsPath.join fl out b = d ++ b
       ∧ ∃ rest, d = out ++ rest.
Proof.
  intros Hb. unfold OsPath.join.
  assert (Py.starts_with_any (OsPath.seps fl) b = false) as ->.
  { destruct b as [| x b]; [done |]. simpl.
    apply bool_decide_eq_false_2. intros Hx.
    specialize (Hb x Hx). simpl in Hb.
    by rewrite bool_decide_eq_true_2 in Hb. }
  destruct (bool_decide (out = EmptyString)
            || Py.ends_with_any (OsPath.seps fl) out) eqn:Hout.
  - exists out. split; [| split; [done |]].
    + apply orb_true_iff in Hout as [Hout%bool_decide_eq_true | Hout];
        [by left | by right].
    + exists EmptyString. by rewrite string_app_nil_r.
  - exists (out ++ String (OsPath.sep fl) EmptyString).
    split; [| split].
    + right. apply ends_with_any_snoc. unfold OsPath.seps. by left.
    + by rewrite string_app_assoc.
    + by exists (String (OsPath.sep fl) EmptyString).
Qed.

Lemma take_drop (n : nat) (s : string) : Py.take n s ++ Py.drop n s = s.
Proof.
  revert s. induction n as [| n IH]; intros [| x s]; try done.
  change (String x (Py.take n s ++ Py.drop n s) = String x s). by rewrite IH.
Qed.

Lemma has_char_drop (c : ascii) (s : string) :
  ∀ (i : Z) (n : nat),
    0 ≤ i → Py.rfind_from c s i < i + Z.of_nat n →
    has_char c (Py.drop n s) = false.
Proof.
  induction s as [| x s IH]; intros i n Hi Hr; [by destruct n |].
  cbn [Py.rfind_from] in Hr.
  destruct n as [| n].
  - change (Py.drop 0 (String x s)) with (String x s).
    apply (rfind_from_absent_inv c _ i Hi).
    destruct (rfind_from_range c (String x s) i) as [H | H]; [done |].
    cbn [Py.rfind_from] in H. lia.
  - change (Py.drop (S n) (String x s)) with (Py.drop n s).
    apply (IH (i + 1) n); [lia |].
    destruct (0 <=? Py.rfind_from c s (i + 1)) eqn:Hpos; [lia |].
    apply Z.leb_gt in Hpos. lia.
Qed.

(** A path is a directory prefix followed by its [basename], which holds
    no separator. *)
Lemma basename_split (fl : flavour) (p : string) :
  ∃ d, dir_prefix fl d ∧ p = d ++ OsPath.basename fl p
       ∧ sep_free fl (OsPath.basename fl p).
Proof.
  unfold OsPath.basename.
  set (i := match OsPath.altsep fl with
            | Some a => Z.max (Py.rfind p (OsPath.sep fl)) (Py.rfind p a)
            | None => Py.rfind p (OsPath.sep fl)
            end).
  assert (∀ c, c ∈ OsPath.seps fl → Py.rfind p c ≤ i) as Hle.
  { intros c Hc. unfold i.
    destruct fl; unfold OsPath.seps in Hc; simpl in *.
    - apply list_elem_of_singleton in Hc as ->. lia.
    - apply elem_of_cons in Hc as [-> | ->%list_elem_of_singleton]; lia. }
  assert (i = -1 ∨ ∃ c, c ∈ OsPath.seps fl ∧ Py.rfind p c = i ∧ 0 ≤ i) as Hi.
  { assert (∀ c, Py.rfind p c = -1 ∨ 0 ≤ Py.rfind p c) as Hr.
    { intros c. unfold Py.rfind. destruct (rfind_from_range c p 0); lia. }
    unfold i. destruct fl; unfold OsPath.seps; simpl.
    - destruct (Hr "/"%char) as [H | H]; [by left |].
      right. exists "/"%char. split; [by left | done].
    - destruct (Hr "\"%char) as [H1 | H1], (Hr "/"%char) as [H2 | H2].
      + left. lia.
      + right. exists "/"%char. split; [by right; left | lia].
      + right. exists "\"%char. split; [by left | lia].
      + right.
        destruct (Z.max_spec (Py.rfind p "\") (Py.rfind p "/")) as [[_ ->] | [_ ->]].
        * exists "/"%char. split; [by right; left | done].
        * exists "\"%char. split; [by left | done]. }
  exists (Py.take (Z.to_nat (i + 1)) p).
  split; [| split].
  - destruct Hi as [-> | (c & Hc & Hr & Hpos)]; [by left |].
    right. unfold Py.rfind in Hr.
    destruct (rfind_from_split c p 0 ltac:(lia) ltac:(lia)) as (a & b & Hp & _ & Hr').
    assert (Z.to_nat (i + 1) = String.length a + 1)%nat as -> by lia.
    clearbody i. rewrite Hp.
    rewrite take_app_plus. simpl.
    replace (Py.take 0 b) with EmptyString by (by destruct b).
    by apply ends_with_any_snoc.
  - by rewrite take_drop.
  - intros c Hc. apply (has_char_drop c p 0); [lia |].
    specialize (Hle c Hc). unfold Py.rfind in Hle.
    destruct Hi as [Hi | (_ & _ & _ & Hi)]; lia.
Qed.

End BuiltNames.

(** ** Where a conversion writes *)

Section Destinations.
Context `{Pillow} `{Host}.

Lemma safe_out_loop_result (fuel : nat) (w : World)
    (out_dir name suffix ext : string) :
  ∀ (dst : string) (n : nat) (r : string),
    safe_out_loop fuel w out_dir name suffix ext dst n = Some r →
    (r ∉ existing w)
    ∧ (r = dst
       ∨ ∃ k : nat, (n ≤ k)%nat
                    ∧ r = OsPath.join os_flavour out_dir
                            (name ++ suffix ++ "-" ++ pretty k ++ ext)).
Proof.
  induction fuel as [| fuel IH]; intros dst n r; simpl; [done |].
  case_bool_decide as Hin.
  - intros Hr. destruct (IH _ _ _ Hr) as [Hfree [-> | (k & Hk & ->)]].
    + split; [done |]. right. by exists n.
    + split; [done |]. right. exists k. split; [lia | done].
  - intros [= <-]. by split; [| left].
Qed.

Lemma basename_prefix (fl : flavour) (d f : string) :
  dir_prefix fl d → sep_free fl f → OsPath.basename fl (d ++ f) = f.
Proof.
  intros Hd Hf. unfold OsPath.basename.
  rewrite (sep_index_prefix fl d f Hd Hf).
  replace (Z.to_nat (Z.of_nat (String.length d) - 1 + 1))
    with (String.length d) by lia.
  apply drop_app_length.
Qed.

(** The allocator of the three programs, for a source name without
    separator and a suffix without dot and separator: the path it returns
    does not exist, lies under the output directory, has the extension
    of the source name, and its last component is the stem, the suffix,
    possibly a number from 2 on, and the extension. *)
Lemma safe_out_path_in_shape (fuel : nat) (w : World)
    (out_dir filename suffix dst : string) :
  sep_free os_flavour filename →
  sep_free os_flavour suffix →
  has_char OsPath.extsep suffix = false →
  safe_out_path_in fuel w out_dir filename suffix = Some dst →
  (dst ∉ existing w)
  ∧ (∃ rest, dst = out_dir ++ rest)
  ∧ (OsPath.splitext os_flavour dst).2
    = (OsPath.splitext os_flavour filename).2
  ∧ ∃ mid,
      (mid = suffix ∨ ∃ n : nat, (2 ≤ n)%nat ∧ mid = suffix ++ "-" ++ pretty n)
      ∧ OsPath.basename os_flavour dst
        = (OsPath.splitext os_flavour filename).1 ++ mid
          ++ (OsPath.splitext os_flavour filename).2.
Proof.
  intros Hf Hs Hdot. unfold safe_out_path_in.
  destruct (OsPath.splitext os_flavour filename) as [name ext] eqn:Hsplit.
  intros Hrun. apply safe_out_loop_result in Hrun as [Hfree Hform].
  split; [done |].
  assert (∃ mid, (mid = suffix
                  ∨ ∃ n : nat, (2 ≤ n)%nat ∧ mid = suffix ++ "-" ++ pretty n)
                 ∧ sep_free os_flavour mid ∧ has_char OsPath.extsep mid = false
                 ∧ dst = OsPath.join os_flavour out_dir (name ++ mid ++ ext))
    as (mid & Hwhich & Hmid & Hmdot & ->).
  { destruct Hform as [-> | (k & Hk & ->)].
    - exists suffix. split; [by left | done].
    - exists (suffix ++ "-" ++ pretty k).
      destruct (numbered_mid os_flavour suffix k Hs Hdot) as [? ?].
      split; [right; by exists k |]. split; [done |]. split; [done |].
      by rewrite !string_app_assoc. }
  destruct (splitext_insert os_flavour filename mid Hf Hmid Hmdot)
    as (_ & Hall & Hext).
  rewrite Hsplit in Hall, Hext. simpl in Hall, Hext.
  destruct (join_sep_free os_flavour out_dir _ Hall) as (d & Hd & -> & rest & ->).
  split; [| split].
  - exists (rest ++ name ++ mid ++ ext). by rewrite string_app_assoc.
  - rewrite splitext_last_component by done. by rewrite Hext.
  - exists mid. split; [done |]. simpl. by apply basename_prefix.
Qed.

Lemma suffix_gray_plain :
  sep_free os_flavour "_gray" ∧ has_char OsPath.extsep "_gray" = false.
Proof.
  split; [| done]. intros c Hc.
  destruct os_flavour; unfold OsPath.seps in Hc; simpl in Hc.
  - by apply list_elem_of_singleton in Hc as ->.
  - by apply elem_of_cons in Hc as [-> | ->%list_elem_of_singleton].
Qed.

Lemma suffix_adj_plain :
  sep_free os_flavour "_adj" ∧ has_char OsPath.extsep "_adj" = false.
Proof.
  split; [| done]. intros c Hc.
  destruct os_flavour; unfold OsPath.seps in Hc; simpl in Hc.
  - by apply list_elem_of_singleton in Hc as ->.
  - by apply elem_of_cons in Hc as [-> | ->%list_elem_of_singleton].
Qed.

Lemma splitext_basename (p : string) :
  (OsPath.splitext os_flavour (OsPath.basename os_flavour p)).2
  = (OsPath.splitext os_flavour p).2.
Proof.
  destruct (basename_split os_flavour p) as (d & Hd & Hp & Hfree).
  rewrite Hp at 2. by rewrite splitext_last_component.
Qed.

(** What a successful [convert_to_gray] has done. *)
Lemma convert_to_gray_success (fuel : nat) (src : string) (w : World)
    (dst : string) (w' : World) :
  GrayscaleTool.convert_to_gray fuel src w = Some ((true, dst), w') →
  ∃ im,
    Image_open w src = Return im
    ∧ getattr_is_animated im = false
    ∧ GrayscaleTool.safe_out_path fuel w (OsPath.basename os_flavour src) = Some dst
    ∧ Image_save (PreviewTool.to_gray_L im) dst (save_kw_for dst) w = (Return (), w').
Proof.
  unfold GrayscaleTool.convert_to_gray, GrayscaleTool.convert_to_gray_body.
  destruct (Image_open w src) as [im | e] eqn:Hopen.
  2:{ intros [= Hres _]. by destruct e. }
  destruct (getattr_is_animated im) eqn:Hanim; [done |].
  destruct (GrayscaleTool.safe_out_path fuel w _) as [dst0 |] eqn:Hpath; [| done].
  fold (PreviewTool.to_gray_L im).
  destruct (Image_save _ dst0 _ w) as [[[] | e] w0] eqn:Hsave.
  - intros [= <- <-]. by exists im.
  - intros [= Hres _]. by destruct e.
Qed.

(** What a successful [convert_one] has done. *)
Lemma convert_one_success (fuel : nat) (src : string) (cfg : Config) (w : World)
    (dst : string) (w' : World) :
  AdjustTool.convert_one fuel src cfg w = Some ((true, dst), w') →
  ∃ im out_img,
    Image_open w src = Return im
    ∧ getattr_is_animated im = false
    ∧ AdjustTool.apply_adjustments (PreviewTool.to_gray_L im) cfg = Return out_img
    ∧ AdjustTool.safe_out_path fuel w (OsPath.basename os_flavour src) = Some dst
    ∧ Image_save out_img dst (save_kw_for dst) w = (Return (), w').
Proof.
  unfold AdjustTool.convert_one, AdjustTool.convert_one_body.
  destruct (Image_open w src) as [im | e] eqn:Hopen.
  2:{ intros [= Hres _]. by destruct e. }
  destruct (getattr_is_animated im) eqn:Hanim; [done |].
  fold (PreviewTool.to_gray_L im).
  destruct (AdjustTool.apply_adjustments _ cfg) as [out_img | e] eqn:Hadj.
  2:{ intros [= Hres _]. by destruct e. }
  destruct (AdjustTool.safe_out_path fuel w _) as [dst0 |] eqn:Hpath; [| done].
  destruct (Image_save _ dst0 _ w) as [[[] | e] w0] eqn:Hsave.
  - intros [= <- <-]. by exists im, out_img.
  - intros [= Hres _]. by destruct e.
Qed.

Lemma convert_to_gray_fresh (fuel : nat) (src : string) (w : World)
    (dst : string) (w' : World) :
  GrayscaleTool.convert_to_gray fuel src w = Some ((true, dst), w') →
  dst ∉ existing w.
Proof.
  intros (im & _ & _ & Hpath & _)%convert_to_gray_success.
  unfold GrayscaleTool.safe_out_path, safe_out_path_in in Hpath.
  destruct (OsPath.splitext os_flavour _) as [name ext].
  by apply safe_out_loop_result in Hpath as [? _].
Qed.

Lemma convert_one_fresh (fuel : nat) (src : string) (cfg : Config) (w : World)
    (dst : string) (w' : World) :
  AdjustTool.convert_one fuel src cfg w = Some ((true, dst), w') →
  dst ∉ existing w.
Proof.
  intros (im & out_img & _ & _ & _ & Hpath & _)%convert_one_success.
  unfold AdjustTool.safe_out_path, safe_out_path_in in Hpath.
  destruct (OsPath.splitext os_flavour _) as [name ext].
  by apply safe_out_loop_result in Hpath as [? _].
Qed.

(** The conversion of the preview program is the conversion of the
    adjustment program: same pipeline, same output directory, same
    suffix. *)
Theorem convert_fullres_is_convert_one (fuel : nat) (src : string)
    (cfg : Config) (w : World) (gray : Image) :
  PreviewTool.convert_fullres fuel src cfg w
  = AdjustTool.convert_one fuel src cfg w
  ∧ PreviewTool.apply_adjustments_L gray cfg
    = AdjustTool.apply_adjustments gray cfg
  ∧ PreviewTool.OUTPUT_DIR = AdjustTool.OUTPUT_DIR.
Proof. done. Qed.

(** A successful conversion never overwrites: the destination did not
    exist before, and what was saved there is the (adjusted) grayscale of
    the opened, not animated source, with the options chosen from the
    destination. *)
Theorem successful_conversion_saves_new_file (fuel : nat) (src : string)
    (cfg : Config) (w : World) (dst : string) (w' : World) :
  (GrayscaleTool.convert_to_gray fuel src w = Some ((true, dst), w') →
     (dst ∉ existing w)
     ∧ ∃ im, Image_open w src = Return im
             ∧ getattr_is_animated im = false
             ∧ Image_save (PreviewTool.to_gray_L im) dst (save_kw_for dst) w
               = (Return (), w'))
  ∧ (AdjustTool.convert_one fuel src cfg w = Some ((true, dst), w') →
       (dst ∉ existing w)
       ∧ ∃ im out_img,
           Image_open w src = Return im
           ∧ getattr_is_animated im = false
           ∧ AdjustTool.apply_adjustments (PreviewTool.to_gray_L im) cfg
             = Return out_img
           ∧ Image_save out_img dst (save_kw_for dst) w = (Return (), w')).
Proof.
  split.
  - intros Hrun. split; [by eapply convert_to_gray_fresh |].
    apply convert_to_gray_success in Hrun as (im & Hopen & Hanim & _ & Hsave).
    by exists im.
  - intros Hrun. split; [by eapply convert_one_fresh |].
    apply convert_one_success in Hrun
      as (im & out_img & Hopen & Hanim & Hadj & _ & Hsave).
    by exists im, out_img.
Qed.

(** On a POSIX host a successful conversion writes under the output
    directory of the program, to a name with the extension of the source;
    so the output is an image file when the source is, and the JPEG
    options are used exactly when the source name ends in [.jpg] or
    [.jpeg], in any letter case. *)
Theorem conversion_keeps_directory_and_extension (fuel : nat) (src : string)
    (cfg : Config) (w : World) (dst : string) (w' : World) :
  os_flavour = Posix →
  (GrayscaleTool.convert_to_gray fuel src w = Some ((true, dst), w') →
     (∃ rest, dst = GrayscaleTool.OUTPUT_DIR ++ rest)
     ∧ (OsPath.splitext os_flavour dst).2 = (OsPath.splitext os_flavour src).2
     ∧ is_image_file os_flavour dst = is_image_file os_flavour src
     ∧ save_kw_for dst = save_kw_for src)
  ∧ (AdjustTool.convert_one fuel src cfg w = Some ((true, dst), w') →
       (∃ rest, dst = AdjustTool.OUTPUT_DIR ++ rest)
       ∧ (OsPath.splitext os_flavour dst).2 = (OsPath.splitext os_flavour src).2
       ∧ is_image_file os_flavour dst = is_image_file os_flavour src
       ∧ save_kw_for dst = save_kw_for src).
Proof.
  intros _.
  destruct (basename_split os_flavour src) as (d & Hd & Hsrc & Hbase).
  split.
  - intros (im & _ & _ & Hpath & _)%convert_to_gray_success.
    destruct suffix_gray_plain as [Hs Hdot].
    destruct (safe_out_path_in_shape _ _ _ _ _ _ Hbase Hs Hdot Hpath)
      as (_ & Hdir & Hext & _).
    rewrite splitext_basename in Hext.
    split; [done |]. split; [done |].
    unfold is_image_file, save_kw_for. by rewrite Hext.
  - intros (im & out_img & _ & _ & _ & Hpath & _)%convert_one_success.
    destruct suffix_adj_plain as [Hs Hdot].
    destruct (safe_out_path_in_shape _ _ _ _ _ _ Hbase Hs Hdot Hpath)
      as (_ & Hdir & Hext & _).
    rewrite splitext_basename in Hext.
    split; [done |]. split; [done |].
    unfold is_image_file, save_kw_for. by rewrite Hext.
Qed.

(** On a POSIX host, the name of the output file, as the batch prints
    it: the stem of the source name, the suffix of the program, possibly
    [-n] with [n >= 2], and the extension of the source name. *)
Theorem conversion_names_output (fuel : nat) (src : string)
    (cfg : Config) (w : World) (dst : string) (w' : World) :
  os_flavour = Posix →
  (GrayscaleTool.convert_to_gray fuel src w = Some ((true, dst), w') →
     ∃ mid,
       (mid = "_gray" ∨ ∃ n : nat, (2 ≤ n)%nat ∧ mid = "_gray" ++ "-" ++ pretty n)
       ∧ OsPath.basename os_flavour dst
         = (OsPath.splitext os_flavour (OsPath.basename os_flavour src)).1
           ++ mid
           ++ (OsPath.splitext os_flavour (OsPath.basename os_flavour src)).2)
  ∧ (AdjustTool.convert_one fuel src cfg w = Some ((true, dst), w') →
       ∃ mid,
         (mid = "_adj" ∨ ∃ n : nat, (2 ≤ n)%nat ∧ mid = "_adj" ++ "-" ++ pretty n)
         ∧ OsPath.basename os_flavour dst
           = (OsPath.splitext os_flavour (OsPath.basename os_flavour src)).1
             ++ mid
             ++ (OsPath.splitext os_flavour (OsPath.basename os_flavour src)).2).
Proof.
  intros _.
  destruct (basename_split os_flavour src) as (d & Hd & Hsrc & Hbase).
  split.
  - intros (im & _ & _ & Hpath & _)%convert_to_gray_success.
    destruct suffix_gray_plain as [Hs Hdot].
    by destruct (safe_out_path_in_shape _ _ _ _ _ _ Hbase Hs Hdot Hpath)
      as (_ & _ & _ & Hname).
  - intros (im & out_img & _ & _ & _ & Hpath & _)%convert_one_success.
    destruct suffix_adj_plain as [Hs Hdot].
    by destruct (safe_out_path_in_shape _ _ _ _ _ _ Hbase Hs Hdot Hpath)
      as (_ & _ & _ & Hname).
Qed.

(** A skipped file leaves the world as it was, unless the skip comes
    from a save that raised. *)
Theorem skipped_conversion_leaves_world (fuel : nat) (src : string)
    (cfg : Config) (w : World) (info : string) (w' : World) :
  (GrayscaleTool.convert_to_gray fuel src w = Some ((false, info), w') →
     w' = w
     ∨ ∃ gray dst e,
         Image_save gray dst (save_kw_for dst) w = (Raise e, w')
         ∧ (dst ∉ existing w))
  ∧ (AdjustTool.convert_one fuel src cfg w = Some ((false, info), w') →
       w' = w
       ∨ ∃ out_img dst e,
           Image_save out_img dst (save_kw_for dst) w = (Raise e, w')
           ∧ (dst ∉ existing w)).
Proof.
  split.
  - unfold GrayscaleTool.convert_to_gray, GrayscaleTool.convert_to_gray_body.
    destruct (Image_open w src) as [im | e]; [| intros [= _ <-]; by left].
    destruct (getattr_is_animated im); [intros [= _ <-]; by left |].
    destruct (GrayscaleTool.safe_out_path fuel w _) as [dst |] eqn:Hpath; [| done].
    unfold GrayscaleTool.safe_out_path, safe_out_path_in in Hpath.
    destruct (OsPath.splitext os_flavour _) as [name ext].
    apply safe_out_loop_result in Hpath as [Hfresh _].
    destruct (Image_save _ dst _ w) as [[[] | e] w0] eqn:Hsave; [done |].
    intros [= _ <-]. right. by eexists _, dst, e.
  - unfold AdjustTool.convert_one, AdjustTool.convert_one_body.
    destruct (Image_open w src) as [im | e]; [| intros [= _ <-]; by left].
    destruct (getattr_is_animated im); [intros [= _ <-]; by left |].
    destruct (AdjustTool.apply_adjustments _ cfg) as [out_img | e];
      [| intros [= _ <-]; by left].
    destruct (AdjustTool.safe_out_path fuel w _) as [dst |] eqn:Hpath; [| done].
    unfold AdjustTool.safe_out_path, safe_out_path_in in Hpath.
    destruct (OsPath.splitext os_flavour _) as [name ext].
    apply safe_out_loop_result in Hpath as [Hfresh _].
    destruct (Image_save _ dst _ w) as [[[] | e] w0] eqn:Hsave; [done |].
    intros [= _ <-]. right. by eexists _, dst, e.
Qed.

(** Two conversions in a row never get the same destination, once the
    first save has made its destination exist. *)
Theorem successive_conversions_differ (fuel1 fuel2 : nat) (src1 src2 : string)
    (cfg1 cfg2 : Config) (w w1 w2 : World) (dst1 dst2 : string) :
  dst1 ∈ existing w1 →
  (GrayscaleTool.convert_to_gray fuel1 src1 w = Some ((true, dst1), w1) →
   GrayscaleTool.convert_to_gray fuel2 src2 w1 = Some ((true, dst2), w2) →
   dst1 ≠ dst2)
  ∧ (AdjustTool.convert_one fuel1 src1 cfg1 w = Some ((true, dst1), w1) →
     AdjustTool.convert_one fuel2 src2 cfg2 w1 = Some ((true, dst2), w2) →
     dst1 ≠ dst2).
Proof.
  intros Hsaved. split; intros _ Hsecond ->.
  - by apply (convert_to_gray_fresh _ _ _ _ _ Hsecond).
  - by apply (convert_one_fresh _ _ _ _ _ _ Hsecond).
Qed.

End Destinations.

(** ** Which names are image files *)

Section ImageNames.

Lemma has_char_lower (c : ascii) (s : string) :
  caseless c → has_char c (Py.lower s) = has_char c s.
Proof.
  intros Hc. induction s as [| x s IH]; [done |]. simpl.
  by rewrite IH, (bool_decide_ext _ _ (Hc x)).
Qed.

Lemma caseless_seps (fl : flavour) (c : ascii) : c ∈ OsPath.seps fl → caseless c.
Proof.
  intros Hc. destruct fl; unfold OsPath.seps in Hc; simpl in Hc.
  - apply list_elem_of_singleton in Hc as ->. apply caseless_slash.
  - apply elem_of_cons in Hc as [-> | ->%list_elem_of_singleton];
      [apply caseless_backslash | apply caseless_slash].
Qed.

(** A recognised extension is a dot followed by letters. *)
Lemma image_ext_shape (fl : flavour) (ext : string) :
  Py.lower ext ∈ IMAGE_EXTS →
  ∃ e, ext = String OsPath.extsep e
       ∧ has_char OsPath.extsep e = false ∧ sep_free fl e.
Proof.
  intros Hin. destruct ext as [| x e].
  { unfold IMAGE_EXTS in Hin. simpl in Hin.
    repeat (apply elem_of_cons in Hin as [Hin | Hin]; [discriminate |]).
    by apply elem_of_nil in Hin. }
  assert (Py.lower_char x = OsPath.extsep
          ∧ has_char OsPath.extsep (Py.lower e) = false
          ∧ ∀ c, c ∈ OsPath.seps fl → has_char c (Py.lower e) = false)
    as (Hx & Hdot & Hsep).
  { assert (∀ c, c ∈ OsPath.seps fl → c = "/"%char ∨ c = "\"%char) as Hseps.
    { intros c Hc. destruct fl; unfold OsPath.seps in Hc; simpl in Hc.
      - apply list_elem_of_singleton in Hc. auto.
      - apply elem_of_cons in Hc as [-> | ->%list_elem_of_singleton]; auto. }
    unfold IMAGE_EXTS in Hin. simpl in Hin.
    repeat (apply elem_of_cons in Hin as [Hin | Hin];
            [injection Hin as -> ->;
             split; [done |]; split; [done |];
             intros c [-> | ->]%Hseps; done |]).
    by apply elem_of_nil in Hin. }
  exists e. split; [| split].
  - f_equal. by apply caseless_dot.
  - by rewrite <- (has_char_lower OsPath.extsep e caseless_dot).
  - intros c Hc. rewrite <- (has_char_lower c e (caseless_seps fl c Hc)).
    by apply Hsep.
Qed.

Lemma splitext_of_basename (fl : flavour) (p : string) :
  (OsPath.splitext fl (OsPath.basename fl p)).2 = (OsPath.splitext fl p).2.
Proof.
  destruct (basename_split fl p) as (d & Hd & Hp & Hfree).
  rewrite Hp at 2. by rewrite splitext_last_component.
Qed.

(** With [posixpath], only the last component of a path decides
    whether it is an image file: a dot in a directory name does not
    count. *)
Theorem is_image_file_last_component (p : string) :
  is_image_file Posix p = is_image_file Posix (OsPath.basename Posix p).
Proof. unfold is_image_file. by rewrite splitext_of_basename. Qed.

(** A file name made of a stem and a recognised extension, in any letter
    case and under any directory, is an image file unless the stem is
    empty or holds dots only (as in [.png] or [..jpg]). *)
Theorem is_image_file_stem (fl : flavour) (d stem ext : string) :
  dir_prefix fl d → sep_free fl stem → Py.lower ext ∈ IMAGE_EXTS →
  is_image_file fl (d ++ stem ++ ext) = negb (all_dots stem).
Proof.
  intros Hd Hstem Hext.
  destruct (image_ext_shape fl ext Hext) as (e & -> & Hdot & Hsep).
  assert (sep_free fl (stem ++ String OsPath.extsep e)) as Hfree.
  { apply sep_free_app. split; [done |]. apply sep_free_cons; [| done].
    intros Hc. destruct fl; unfold OsPath.seps in Hc; simpl in Hc.
    - by apply list_elem_of_singleton in Hc.
    - by apply elem_of_cons in Hc as [? | ?%list_elem_of_singleton]. }
  unfold is_image_file.
  rewrite splitext_last_component, splitext_dotted by done.
  destruct (all_dots stem); cbn [snd negb].
  - apply bool_decide_eq_false_2. unfold IMAGE_EXTS. simpl. intros Hin.
    repeat (apply elem_of_cons in Hin as [Hin | Hin]; [discriminate |]).
    by apply elem_of_nil in Hin.
  - by apply bool_decide_eq_true_2.
Qed.

(** With [posixpath], a name without any dot in its last component is
    not an image file. *)
Theorem is_image_file_needs_dot (p : string) :
  has_char OsPath.extsep (OsPath.basename Posix p) = false →
  is_image_file Posix p = false.
Proof.
  intros Hdot. destruct (basename_split Posix p) as (d & Hd & Hp & Hfree).
  unfold is_image_file. rewrite <- splitext_of_basename.
  by rewrite splitext_dotless.
Qed.

End ImageNames.

(** ** How long the allocator runs *)

Section FuelBound.
Context `{Pillow} `{Host}.
Local Open Scope nat_scope.

Lemma safe_out_path_in_bound (fuel : nat) (w : World)
    (out_dir filename suffix : string) :
  size (existing w) + 2 ≤ fuel →
  is_Some (safe_out_path_in fuel w out_dir filename suffix).
Proof.
  intros Hfuel. unfold safe_out_path_in.
  destruct (OsPath.splitext os_flavour filename) as [name ext].
  destruct (numbered_free w out_dir name suffix ext) as (n & Hn & Hfree).
  destruct (safe_out_loop_spec w out_dir name suffix ext (n - 2) 2
              (OsPath.join os_flavour out_dir (name ++ suffix ++ ext)))
    as (r & Hrun & _).
  { by replace (2 + (n - 2)) with n by lia. }
  exists r. apply Hrun. lia.
Qed.

(** The loop of [safe_out_path] looks at no more than two names more
    than there are existing paths: with that much fuel the allocator and
    the three conversion functions return. *)
Theorem allocation_within_bound (fuel : nat) (w : World) (src : string)
    (cfg : Config) :
  size (existing w) + 2 ≤ fuel →
  is_Some (GrayscaleTool.safe_out_path fuel w src)
  ∧ is_Some (AdjustTool.safe_out_path fuel w src)
  ∧ (∀ suffix, is_Some (PreviewTool.safe_out_path fuel w src suffix))
  ∧ is_Some (GrayscaleTool.convert_to_gray fuel src w)
  ∧ is_Some (AdjustTool.convert_one fuel src cfg w)
  ∧ is_Some (PreviewTool.convert_fullres fuel src cfg w).
Proof.
  intros Hfuel.
  assert (∀ out_dir filename suffix,
            is_Some (safe_out_path_in fuel w out_dir filename suffix)) as Hsome.
  { intros. by apply safe_out_path_in_bound. }
  split; [apply Hsome |]. split; [apply Hsome |]. split; [intros; apply Hsome |].
  assert (is_Some (AdjustTool.convert_one fuel src cfg w)) as Hone.
  { unfold AdjustTool.convert_one, AdjustTool.convert_one_body.
    destruct (Image_open w src) as [im | e]; [| done].
    destruct (getattr_is_animated im); [done |].
    destruct (AdjustTool.apply_adjustments _ cfg) as [out_img | e]; [| done].
    unfold AdjustTool.safe_out_path.
    destruct (Hsome AdjustTool.OUTPUT_DIR (OsPath.basename os_flavour src) "_adj")
      as [dst ->].
    by destruct (Image_save out_img dst _ w) as [[[] | e] w']. }
  split; [| by split].
  unfold GrayscaleTool.convert_to_gray, GrayscaleTool.convert_to_gray_body.
  destruct (Image_open w src) as [im | e]; [| done].
  destruct (getattr_is_animated im); [done |].
  unfold GrayscaleTool.safe_out_path.
  destruct (Hsome GrayscaleTool.OUTPUT_DIR (OsPath.basename os_flavour src) "_gray")
    as [dst ->].
  by destruct (Image_save _ dst _ w) as [[[] | e] w'].
Qed.

End FuelBound.

(** ** The identity configuration, file by file *)

Section IdentityFiles.
Context `{Pillow} `{Host}.

Lemma apply_adjustments_identity (gray : Image) (cfg : Config) :
  identity_cfg cfg → AdjustTool.apply_adjustments gray cfg = Return gray.
Proof.
  intros (Hac & Hb & Hc & Hg). unfold AdjustTool.apply_adjustments.
  rewrite one_point_zero, Hac.
  destruct (Rlt_dec 1e-6 (Rabs (default 1%R (cfg_brightness cfg) - 1))); [lra |].
  destruct (Rlt_dec 1e-6 (Rabs (default 1%R (cfg_contrast cfg) - 1))); [lra |].
  destruct (Rlt_dec 1e-6 (Rabs (default 1%R (cfg_gamma cfg) - 1))); [lra |].
  done.
Qed.

(** With an identity configuration the adjustment program and the
    preview program save what the plain grayscale program saves: the
    grayscale of the opened image, only under their own directory and
    suffix. *)
Theorem identity_config_saves_plain_grayscale (fuel : nat) (src : string)
    (cfg : Config) (w : World) (im : Image) :
  identity_cfg cfg →
  Image_open w src = Return im →
  getattr_is_animated im = false →
  AdjustTool.convert_one fuel src cfg w
  = save_at w (PreviewTool.to_gray_L im)
      (AdjustTool.safe_out_path fuel w (OsPath.basename os_flavour src))
  ∧ PreviewTool.convert_fullres fuel src cfg w
    = save_at w (PreviewTool.to_gray_L im)
        (PreviewTool.safe_out_path fuel w (OsPath.basename os_flavour src) "_adj")
  ∧ GrayscaleTool.convert_to_gray fuel src w
    = save_at w (PreviewTool.to_gray_L im)
        (GrayscaleTool.safe_out_path fuel w (OsPath.basename os_flavour src)).
Proof.
  intros Hid Hopen Hanim.
  assert (AdjustTool.convert_one fuel src cfg w
          = save_at w (PreviewTool.to_gray_L im)
              (AdjustTool.safe_out_path fuel w (OsPath.basename os_flavour src)))
    as Hone.
  { unfold AdjustTool.convert_one, AdjustTool.convert_one_body, save_at.
    rewrite Hopen, Hanim. fold (PreviewTool.to_gray_L im).
    rewrite (apply_adjustments_identity _ cfg Hid).
    destruct (AdjustTool.safe_out_path fuel w _) as [dst |]; [| done].
    by destruct (Image_save _ dst _ w) as [[[] | e] w']. }
  split; [exact Hone |]. split; [exact Hone |].
  unfold GrayscaleTool.convert_to_gray, GrayscaleTool.convert_to_gray_body, save_at.
  rewrite Hopen, Hanim. fold (PreviewTool.to_gray_L im).
  destruct (GrayscaleTool.safe_out_path fuel w _) as [dst |]; [| done].
  by destruct (Image_save _ dst _ w) as [[[] | e] w'].
Qed.

End IdentityFiles.

(** ** The shape of the gamma table *)

Section GammaShape.
Local Open Scope R_scope.

Lemma round_IZR (z : Z) : PyFloat.round (IZR z) = z.
Proof.
  unfold PyFloat.round. rewrite ZfloorZ.
  destruct (Rlt_dec (IZR z - IZR z) (1 / 2)); [done | lra].
Qed.

Lemma round_small (x : R) : 0 <= x < 1 / 2 → PyFloat.round x = 0%Z.
Proof.
  intros [Hlo Hhi]. pose proof (round_near x) as [Ha Hb].
  assert (-1 < PyFloat.round x)%Z by (apply lt_IZR; lra).
  assert (PyFloat.round x < 1)%Z by (apply lt_IZR; lra).
  lia.
Qed.

Lemma real_pow_one (x : R) : 0 <= x → real_pow x 1 = x.
Proof.
  intros Hx. unfold real_pow. destruct (Req_dec_T x 0); [done |].
  apply Rpower_1. lra.
Qed.

Lemma real_pow_base_one (y : R) : real_pow 1 y = 1.
Proof.
  unfold real_pow. destruct (Req_dec_T 1 0); [lra |].
  unfold Rpower. rewrite ln_1, Rmult_0_r. apply exp_0.
Qed.

Lemma real_pow_base_zero (y : R) : real_pow 0 y = 0.
Proof. unfold real_pow. destruct (Req_dec_T 0 0); [done | lra]. Qed.

Lemma exp_le (x y : R) : x <= y → exp x <= exp y.
Proof. intros [Hlt | ->]; [left; by apply exp_increasing | lra]. Qed.

Lemma ln_unit_interval (x : R) : 0 < x <= 1 → ln x <= 0.
Proof.
  intros [Hx0 [Hlt | ->]]; [| rewrite ln_1; lra].
  rewrite <- ln_1. left. by apply ln_increasing.
Qed.

(** On [0, 1] a larger exponent gives a smaller power. *)
Lemma real_pow_exponent (x a b : R) :
  0 <= x <= 1 → a <= b → real_pow x b <= real_pow x a.
Proof.
  intros [Hx0 Hx1] Hab. unfold real_pow.
  destruct (Req_dec_T x 0); [lra |].
  unfold Rpower. apply exp_le.
  pose proof (ln_unit_interval x ltac:(lra)). nra.
Qed.

Lemma inv_of_gamma (g : R) :
  0 < 1.0 / PyFloat.max g 1e-6
  ∧ (1 <= g → 1.0 / PyFloat.max g 1e-6 <= 1)
  ∧ (g <= 1 → 1 <= 1.0 / PyFloat.max g 1e-6).
Proof.
  pose proof (max_floor g) as Hmax. rewrite one_point_zero.
  assert (0 < PyFloat.max g 1e-6) as Hpos by lra.
  split; [apply Rdiv_lt_0_compat; lra |].
  split; intros Hg.
  - rewrite max_id by lra.
    apply (Rmult_le_reg_r g); [lra |]. field_simplify; lra.
  - assert (PyFloat.max g 1e-6 <= 1) as Hle.
    { unfold PyFloat.max. destruct (Rlt_dec g 1e-6); lra. }
    apply (Rmult_le_reg_r (PyFloat.max g 1e-6)); [lra |].
    field_simplify; lra.
Qed.

Lemma gamma_lut_lookup (inv : R) (i : nat) (v : Z) :
  0 < inv →
  ((λ z : Z, PyFloat.round (real_pow (IZR z / 255) inv * 255)) <$> seqZ 0 256)
    !! i = Some v →
  (i < 256)%nat
  ∧ v = PyFloat.round (real_pow (IZR (Z.of_nat i) / 255) inv * 255).
Proof.
  intros Hinv Hi. rewrite list_lookup_fmap in Hi.
  destruct (seqZ 0 256 !! i) as [z |] eqn:Ez; [| done].
  apply lookup_seqZ in Ez as [-> Hlt]. simpl in Hi. injection Hi as <-.
  split; [lia |]. by rewrite Z.add_0_l.
Qed.

(** The table of every finite gamma, zero and negative ones included,
    keeps black and white: level 0 goes to 0 and level 255 to 255.  (An
    infinite gamma, which is no real number, makes the exponent 0.0.) *)
Theorem gamma_lut_keeps_black_and_white (g : R) :
  ∃ lut : list Z,
    gamma_lut (1.0 / PyFloat.max g 1e-6) = Return lut
    ∧ lut !! 0%nat = Some 0%Z
    ∧ lut !! 255%nat = Some 255%Z.
Proof.
  destruct (inv_of_gamma g) as (Hinv & _).
  eexists. split; [by apply gamma_lut_total |].
  split.
  - rewrite list_lookup_fmap, (lookup_seqZ_lt 0 256 0) by lia. simpl.
    f_equal. change (0 + Z.of_nat 0)%Z with 0%Z.
    replace (0 / 255) with 0 by lra.
    rewrite real_pow_base_zero, Rmult_0_l. apply (round_IZR 0).
  - rewrite list_lookup_fmap, (lookup_seqZ_lt 0 256 255) by lia. simpl.
    f_equal. change (0 + Z.of_nat 255)%Z with 255%Z.
    replace (255 / 255) with 1 by lra.
    rewrite real_pow_base_one, Rmult_1_l. apply (round_IZR 255).
Qed.

(** A gamma of at least 1 never darkens a level and a gamma of at most 1
    never brightens one. *)
Theorem gamma_lut_direction (g : R) :
  ∃ lut : list Z,
    gamma_lut (1.0 / PyFloat.max g 1e-6) = Return lut
    ∧ (1 <= g → ∀ (i : nat) (v : Z), lut !! i = Some v → (Z.of_nat i ≤ v)%Z)
    ∧ (g <= 1 → ∀ (i : nat) (v : Z), lut !! i = Some v → (v ≤ Z.of_nat i)%Z).
Proof.
  destruct (inv_of_gamma g) as (Hinv & Hbright & Hdark).
  eexists. split; [by apply gamma_lut_total |].
  assert (∀ i : nat, (i < 256)%nat →
            IZR (Z.of_nat i) = real_pow (IZR (Z.of_nat i) / 255) 1 * 255
            ∧ 0 <= IZR (Z.of_nat i) / 255 <= 1) as Hlevel.
  { intros i Hi.
    pose proof (level_unit_interval (Z.of_nat i) ltac:(lia)) as Hx.
    split; [| done]. rewrite real_pow_one by lra. lra. }
  split; intros Hg i v Hv;
    apply gamma_lut_lookup in Hv as [Hi ->]; try done;
    destruct (Hlevel i Hi) as [Heq Hx].
  - transitivity (PyFloat.round (IZR (Z.of_nat i))); [by rewrite round_IZR |].
    apply round_mono.
    pose proof (real_pow_exponent (IZR (Z.of_nat i) / 255) _ _ Hx (Hbright Hg)).
    lra.
  - transitivity (PyFloat.round (IZR (Z.of_nat i))); [| by rewrite round_IZR].
    apply round_mono.
    pose proof (real_pow_exponent (IZR (Z.of_nat i) / 255) _ _ Hx (Hdark Hg)).
    lra.
Qed.

(** For a gamma of at most 1e-6 (zero, negative) the exponent is the
    constant 1e6, and the table sends every level below 255 to 0. *)
Theorem gamma_lut_degenerate (g : R) :
  g <= 1e-6 →
  ∃ lut : list Z,
    gamma_lut (1.0 / PyFloat.max g 1e-6) = Return lut
    ∧ length lut = 256%nat
    ∧ (∀ i : nat, (i < 255)%nat → lut !! i = Some 0%Z)
    ∧ lut !! 255%nat = Some 255%Z.
Proof.
  intros Hg.
  assert (1.0 / PyFloat.max g 1e-6 = 1000000) as Hinv.
  { unfold PyFloat.max. destruct (Rlt_dec g 1e-6); [lra |].
    assert (g = 1e-6) as -> by lra. lra. }
  rewrite Hinv.
  eexists. split; [apply gamma_lut_total; lra |].
  split; [by rewrite length_fmap, length_seqZ |].
  split.
  - intros i Hi.
    rewrite list_lookup_fmap, (lookup_seqZ_lt 0 256 i) by lia. simpl.
    f_equal. apply round_small.
    pose proof (level_unit_interval (Z.of_nat i) ltac:(lia)) as [Hx0 _].
    assert (IZR (Z.of_nat i) <= 254) as Hi254 by (apply IZR_le; lia).
    assert (real_pow (IZR (Z.of_nat i) / 255) 1000000
            <= real_pow (254 / 255) 1000000) as Hle.
    { apply real_pow_mono; lra. }
    assert (0 <= real_pow (IZR (Z.of_nat i) / 255) 1000000) as Hnn.
    { apply real_pow_unit_interval; lra. }
    assert (real_pow (254 / 255) 1000000 < 1 / 3922) as Hsmall.
    { unfold real_pow. destruct (Req_dec_T (254 / 255) 0); [lra |].
      unfold Rpower.
      assert (ln (254 / 255) < - (1 / 255)) as Hln.
      { assert (ln (254 / 255) ≠ 0) as Hne by (apply ln_neq_0; lra).
        pose proof (exp_ineq1 _ Hne) as Hexp.
        rewrite exp_ln in Hexp by lra. lra. }
      apply Rle_lt_trans with (exp (- (1000000 / 255))).
      { apply exp_le. lra. }
      rewrite exp_Ropp.
      assert (1 + 1000000 / 255 < exp (1000000 / 255)) as Hbig.
      { apply exp_ineq1. lra. }
      assert (3922 < exp (1000000 / 255)) as Hbig' by lra.
      apply (Rmult_lt_reg_r (exp (1000000 / 255))); [lra |].
      rewrite Rinv_l by lra. lra. }
    replace (0 + Z.of_nat i)%Z with (Z.of_nat i) by lia.
    lra.
  - rewrite list_lookup_fmap, (lookup_seqZ_lt 0 256 255) by lia. simpl.
    f_equal. change (0 + Z.of_nat 255)%Z with 255%Z.
    replace (255 / 255) with 1 by lra.
    rewrite real_pow_base_one, Rmult_1_l. apply (round_IZR 255).
Qed.

End GammaShape.

(** ** Fitting the preview into its box *)

Section ResizeToBox.
Context `{Pillow} `{PillowResize} `{Host}.
Local Open Scope R_scope.

Lemma min3_spec (a b c : R) :
  PyNum.min3 a b c <= a ∧ PyNum.min3 a b c <= b ∧ PyNum.min3 a b c <= c
  ∧ (PyNum.min3 a b c = a ∨ PyNum.min3 a b c = b ∨ PyNum.min3 a b c = c).
Proof.
  unfold PyNum.min3.
  destruct (Rlt_dec b a); destruct (Rlt_dec c _); repeat split; auto; lra.
Qed.

Lemma int_of_float_bounds (x : R) (lo hi : Z) :
  0 <= x → IZR lo <= x → x <= IZR hi →
  (0 ≤ PyNum.int_of_float x)%Z
  ∧ (lo ≤ PyNum.int_of_float x ≤ hi)%Z
  ∧ IZR (PyNum.int_of_float x) <= x.
Proof.
  intros Hx Hlo Hhi. unfold PyNum.int_of_float.
  destruct (Rle_dec 0 x); [| lra].
  pose proof (Zfloor_bound x) as [Hf _].
  split; [by apply (Zfloor_lub 0) |].
  split; [| done].
  split; [by apply Zfloor_lub |]. apply le_IZR. lra.
Qed.

(** [resize_to_box] divides by no zero.  It returns the image itself
    when a size or a side of the box is not positive or when the image
    fits the box; otherwise its outcome is the one of [im.resize] for a
    size that fits the box, has no negative side and is smaller than the
    image on both sides.  (A side of that size can be 0, and [im.resize]
    then raises.) *)
Theorem resize_to_box_fits (im : Image) (max_w max_h : Z) :
  (0 ≤ (im_size im).1)%Z → (0 ≤ (im_size im).2)%Z →
  (((im_size im).1 = 0 ∨ (im_size im).2 = 0 ∨ max_w ≤ 0 ∨ max_h ≤ 0
    ∨ ((im_size im).1 ≤ max_w ∧ (im_size im).2 ≤ max_h))%Z →
   PreviewApp.resize_to_box im max_w max_h = Return im)
  ∧ ((0 < (im_size im).1 ∧ 0 < (im_size im).2 ∧ 0 < max_w ∧ 0 < max_h
      ∧ (max_w < (im_size im).1 ∨ max_h < (im_size im).2))%Z →
     ∃ nw nh : Z,
       PreviewApp.resize_to_box im max_w max_h = Image_resize im (nw, nh)
       ∧ (0 ≤ nw ≤ max_w ∧ 0 ≤ nh ≤ max_h
          ∧ nw < (im_size im).1 ∧ nh < (im_size im).2)%Z).
Proof.
  unfold PreviewApp.resize_to_box.
  destruct (im_size im) as [w h]. simpl. intros Hw Hh.
  destruct (Z.eqb_spec w 0) as [-> | Hw0]; simpl.
  { split; [done | lia]. }
  destruct (Z.eqb_spec h 0) as [-> | Hh0]; simpl.
  { split; [done | lia]. }
  destruct (Z.leb_spec max_w 0) as [Hmw | Hmw]; simpl.
  { split; [done | lia]. }
  destruct (Z.leb_spec max_h 0) as [Hmh | Hmh]; simpl.
  { split; [done | lia]. }
  assert (0 < IZR w) as Hwr by (apply (IZR_lt 0); lia).
  assert (0 < IZR h) as Hhr by (apply (IZR_lt 0); lia).
  assert (0 < IZR max_w) as Hmwr by (apply (IZR_lt 0); lia).
  assert (0 < IZR max_h) as Hmhr by (apply (IZR_lt 0); lia).
  rewrite !truediv_nonzero by lra. simpl. rewrite one_point_zero.
  set (a := IZR max_w / IZR w). set (b := IZR max_h / IZR h).
  assert (IZR w * a = IZR max_w) as Ha by (unfold a; field; lra).
  assert (IZR h * b = IZR max_h) as Hb by (unfold b; field; lra).
  assert (0 < a) as Hapos by (apply Rdiv_lt_0_compat; lra).
  assert (0 < b) as Hbpos by (apply Rdiv_lt_0_compat; lra).
  destruct (min3_spec 1 a b) as (Hs1 & Hsa & Hsb & Hcases).
  set (scale := PyNum.min3 1 a b) in *.
  assert (0 < scale) as Hspos by (destruct Hcases as [-> | [-> | ->]]; lra).
  destruct (Rlt_dec scale 1) as [Hlt | Hge].
  - split.
    + intros [? | [? | [? | [? | [Hfw Hfh]]]]]; try lia.
      apply IZR_le in Hfw, Hfh.
      assert (1 <= a) by nra. assert (1 <= b) by nra.
      destruct Hcases as [Hc | [Hc | Hc]]; lra.
    + intros _.
      destruct (int_of_float_bounds (IZR w * scale) 0 max_w) as (Hn0 & Hn & Hnx);
        [nra | simpl; nra | nra |].
      destruct (int_of_float_bounds (IZR h * scale) 0 max_h) as (Hm0 & Hm & Hmx);
        [nra | simpl; nra | nra |].
      eexists _, _. split; [done |].
      split; [lia |]. split; [lia |].
      split; apply lt_IZR; nra.
  - split; [done |].
    intros (_ & _ & _ & _ & [Hbig | Hbig]); apply IZR_lt in Hbig.
    + assert (a < 1) by nra. lra.
    + assert (b < 1) by nra. lra.
Qed.

End ResizeToBox.

(** ** The collected targets as a set *)

Section CollectorSet.
Context `{Host}.

Lemma collect_targets_facts (w : World) (inputs : list string) :
  StronglySorted String.le (collect_targets w inputs)
  ∧ NoDup (collect_targets w inputs)
  ∧ Forall (λ x, is_image_file os_flavour x = true) (collect_targets w inputs)
  ∧ (∀ x, x ∈ collect_targets w inputs ↔ ∃ p, p ∈ inputs ∧ offered w p x).
Proof.
  assert (acc_ok ([], ∅)) as Hinit.
  { split; [apply NoDup_nil_2 |]. split; [| done].
    intros x. simpl. split; [by intros ?%elem_of_empty | by intros ?%elem_of_nil]. }
  destruct (foldl_acc_ok (collect_input w) (offered w)
              (collect_input_ok w) inputs ([], ∅) Hinit)
    as [(Hnd & _ & Himg) Hmem].
  unfold collect_targets.
  pose proof (merge_sort_Permutation String.le
                (foldl (collect_input w) ([], ∅) inputs).1) as Hperm.
  split; [apply (StronglySorted_merge_sort _) |].
  split; [by rewrite Hperm |].
  split; [by rewrite Hperm |].
  intros x. rewrite Hperm, Hmem, elem_of_nil. split.
  - by intros [[] | Hx].
  - by right.
Qed.

(** The collected targets depend on the set of the arguments only: the
    order of the arguments and their repetition do not matter. *)
Theorem collect_targets_order_independent (w : World) (l1 l2 : list string) :
  (∀ p, p ∈ l1 ↔ p ∈ l2) → collect_targets w l1 = collect_targets w l2.
Proof.
  intros Hsame.
  destruct (collect_targets_facts w l1) as (Hs1 & Hn1 & _ & Hm1).
  destruct (collect_targets_facts w l2) as (Hs2 & Hn2 & _ & Hm2).
  apply (StronglySorted_unique String.le); [done | done |].
  apply NoDup_Permutation; [done | done |].
  intros x. rewrite Hm1, Hm2. split; intros (p & Hp & Hx); exists p.
  - by split; [apply Hsame |].
  - by split; [apply Hsame |].
Qed.

(** ** The file list of the GUI *)

Lemma filter_all_out {A : Type} (P : A → Prop) `{∀ x, Decision (P x)} (l : list A) :
  (∀ x, x ∈ l → ¬ P x) → filter P l = [].
Proof.
  intros Hout. destruct (filter P l) as [| x k] eqn:Hf; [done |].
  assert (x ∈ filter P l) as [Hx Hin]%list_elem_of_filter by (rewrite Hf; left).
  by destruct (Hout x Hin).
Qed.

Lemma foldl_append_rows (lb added : list string) :
  foldl (λ lb p, (lb ++ [p])%list) lb added = (lb ++ added)%list.
Proof.
  revert lb. induction added as [| p added IH]; intros lb; simpl.
  - by rewrite app_nil_r.
  - by rewrite IH, <- app_assoc.
Qed.

(** The file list stays in order.  It is in order when the window
    opens and after [clear_list]; [_push] keeps it in order, keeps the
    targets it had at their places, adds exactly the collected targets
    that were not there, and pushing the same items again changes
    nothing. *)
Theorem push_keeps_file_list (w : World) (items : list string) (st : GuiState) :
  gui_ok st →
  gui_ok BatchGui.initial
  ∧ gui_ok (BatchGui.clear_list st)
  ∧ gui_ok (BatchGui._push w items st)
  ∧ (∃ added, gui_targets (BatchGui._push w items st)
              = (gui_targets st ++ added)%list)
  ∧ (∀ x, x ∈ gui_targets (BatchGui._push w items st)
          ↔ x ∈ gui_targets st ∨ x ∈ collect_targets w items)
  ∧ BatchGui._push w items (BatchGui._push w items st)
    = BatchGui._push w items st.
Proof.
  intros (Hlb & Hcount & Hnd & Himg).
  assert (gui_ok BatchGui.initial) as Hinitial.
  { repeat split; [apply NoDup_nil_2 | apply Forall_nil_2]. }
  split; [exact Hinitial |]. split; [exact Hinitial |].
  destruct (collect_targets_facts w items) as (_ & Hnew_nd & Hnew_img & _).
  unfold BatchGui._push.
  set (new := collect_targets w items) in *.
  set (added := filter (λ p, p ∉ (list_to_set (gui_targets st) : gset string)) new).
  assert (∀ x, x ∈ added ↔ (x ∉ gui_targets st) ∧ x ∈ new) as Hadded.
  { intros x. unfold added. rewrite list_elem_of_filter, elem_of_list_to_set. done. }
  case_bool_decide as Hempty.
  - split; [done |]. split; [exists []; by rewrite app_nil_r |].
    split.
    + intros x. split; [by left |]. intros [Hx | Hx]; [done |].
      destruct (decide (x ∈ gui_targets st)) as [Hin | Hout]; [done |].
      assert (x ∈ added) as Hx' by (by apply Hadded).
      rewrite Hempty in Hx'. by apply elem_of_nil in Hx'.
    + fold added. by rewrite bool_decide_eq_true_2.
  - split; [| split; [by exists added | split]].
    + split; [| split; [| split]]; simpl.
      * by rewrite foldl_append_rows, Hlb.
      * done.
      * apply NoDup_app. split; [done |]. split; [| by apply NoDup_filter].
        intros x Hx [Hout _]%Hadded. done.
      * apply Forall_app. split; [done |].
        apply Forall_forall. intros x [_ Hx]%Hadded.
        by eapply Forall_forall in Hnew_img.
    + intros x. simpl. rewrite elem_of_app, Hadded. split.
      * intros [Hx | [_ Hx]]; [by left | by right].
      * intros [Hx | Hx]; [by left |].
        destruct (decide (x ∈ gui_targets st)); [by left | by right].
    + simpl.
      rewrite (filter_all_out _ new).
      * by rewrite bool_decide_eq_true_2.
      * intros x Hx Hnot. apply Hnot. apply elem_of_list_to_set, elem_of_app.
        destruct (decide (x ∈ gui_targets st)); [by left |].
        right. by apply Hadded.
Qed.

End CollectorSet.

(** ** The preview program: preview and conversion of a list *)

Section PreviewFacts.
Context `{Pillow} `{PillowResize} `{Host}.
Local Open Scope nat_scope.

(** The preview shows what is saved: when [convert_fullres] succeeds,
    the image it saved is the adjustment of the preview base of the same
    file, that is the "after" picture before it is fitted to the box. *)
Theorem preview_shows_what_is_saved (fuel : nat) (src : string) (cfg : Config)
    (w : World) (dst : string) (w' : World) :
  PreviewTool.convert_fullres fuel src cfg w = Some ((true, dst), w') →
  ∃ base after : Image,
    PreviewApp.make_preview_base w src = Some base
    ∧ PreviewTool.apply_adjustments_L base cfg = Return after
    ∧ Image_save after dst (save_kw_for dst) w = (Return (), w').
Proof.
  intros Hrun.
  destruct (convert_one_success fuel src cfg w dst w' Hrun)
    as (im & out_img & Hopen & _ & Hadj & _ & Hsave).
  exists (PreviewTool.to_gray_L im), out_img.
  unfold PreviewApp.make_preview_base. by rewrite Hopen.
Qed.

End PreviewFacts.

(** ** The added properties on the sample host *)

Lemma sep_free_posix (s : string) :
  has_char "/"%char s = false → sep_free Posix s.
Proof.
  intros Hs c Hc. unfold OsPath.seps in Hc. simpl in Hc.
  by apply list_elem_of_singleton in Hc as ->.
Qed.

Lemma default_cfg_identity : identity_cfg AdjustTool.default_cfg.
Proof.
  unfold identity_cfg. simpl.
  replace (1.0 - 1)%R with 0%R by lra. rewrite Rabs_R0.
  repeat split; lra.
Qed.

Lemma is_image_file_stem_witness :
  is_image_file Posix ("/in/" ++ "cat" ++ ".PNG") = negb (all_dots "cat").
Proof.
  apply (is_image_file_stem Posix "/in/" "cat" ".PNG").
  - by right.
  - by apply sep_free_posix.
  - by apply (bool_decide_unpack _).
Defined.

Lemma is_image_file_needs_dot_witness :
  is_image_file Posix "photos.png/readme" = false.
Proof. apply (is_image_file_needs_dot "photos.png/readme"). reflexivity. Defined.

Lemma allocation_within_bound_witness :
  is_Some (GrayscaleTool.convert_to_gray 4 "/in/cat.png" sample_world).
Proof.
  apply (allocation_within_bound 4 sample_world "/in/cat.png" AdjustTool.default_cfg).
  vm_compute. lia.
Defined.

Lemma identity_config_saves_plain_grayscale_witness :
  AdjustTool.convert_one 4 "/in/cat.png" AdjustTool.default_cfg sample_world
  = save_at sample_world (PreviewTool.to_gray_L sample_gray)
      (AdjustTool.safe_out_path 4 sample_world "cat.png").
Proof.
  apply (identity_config_saves_plain_grayscale 4 "/in/cat.png"
           AdjustTool.default_cfg sample_world sample_gray).
  - exact default_cfg_identity.
  - reflexivity.
  - reflexivity.
Defined.

Lemma resize_to_box_fits_witness :
  PreviewApp.resize_to_box sample_gray 2 1 = Return sample_gray
  ∧ ∃ nw nh : Z,
      PreviewApp.resize_to_box sample_gray 1 1 = Image_resize sample_gray (nw, nh)
      ∧ (0 ≤ nw ≤ 1)%Z ∧ (0 ≤ nh ≤ 1)%Z.
Proof.
  split.
  - apply (resize_to_box_fits sample_gray 2 1); simpl; lia.
  - destruct (resize_to_box_fits sample_gray 1 1) as [_ Hbig]; [simpl; lia ..|].
    destruct Hbig as (nw & nh & Hr & Hnw & Hnh & _); [simpl; lia |].
    by exists nw, nh.
Defined.

Lemma gamma_lut_degenerate_witness :
  ∃ lut : list Z,
    gamma_lut (1.0 / PyFloat.max 0 1e-6) = Return lut ∧ lut !! 254%nat = Some 0%Z.
Proof.
  destruct (gamma_lut_degenerate 0%R) as (lut & Hlut & _ & Hzero & _).
  - lra.
  - exists lut. split; [exact Hlut |]. apply Hzero. lia.
Defined.

Lemma collect_targets_order_independent_witness :
  collect_targets sample_world ["/in/cat.png"; "/in/spin.gif"]
  = collect_targets sample_world ["/in/spin.gif"; "/in/cat.png"; "/in/cat.png"].
Proof.
  apply (collect_targets_order_independent sample_world).
  intros p. rewrite !elem_of_cons, !elem_of_nil. tauto.
Defined.

Lemma push_keeps_file_list_witness :
  gui_ok (BatchGui._push sample_world ["/in/cat.png"] BatchGui.initial).
Proof.
  apply (push_keeps_file_list sample_world ["/in/cat.png"] BatchGui.initial).
  repeat split; [apply NoDup_nil_2 | apply Forall_nil_2].
Defined.

Lemma successive_conversions_differ_witness :
  ∃ (dst1 dst2 : string) (w1 w2 : @World SampleHost),
    GrayscaleTool.convert_to_gray 3 "/in/cat.png" sample_world
    = Some ((true, dst1), w1)
    ∧ GrayscaleTool.convert_to_gray 3 "/in/cat.png" w1 = Some ((true, dst2), w2)
    ∧ dst1 ≠ dst2.
Proof.
  pose proof first_conversion as Hfirst.
  destruct (GrayscaleTool.convert_to_gray 3 "/in/cat.png" sample_world)
    as [[[res1 dst1] w1] |] eqn:Hrun1; [| discriminate Hfirst].
  simpl in Hfirst. injection Hfirst as -> ->.
  assert (w1 = <["/home/user/Desktop/grayscale_output/cat_gray.png" :=
                   Return (ImageOps_grayscale sample_gray)]> sample_world) as ->.
  { destruct (convert_to_gray_success _ _ _ _ _ Hrun1) as (im & Hopen & _ & _ & Hsave).
    change (Return sample_gray = Return im) in Hopen. injection Hopen as <-.
    simpl in Hsave. by injection Hsave as <-. }
  pose proof second_conversion as Hsecond.
  destruct (GrayscaleTool.convert_to_gray 3 "/in/cat.png" _)
    as [[[res2 dst2] w2] |] eqn:Hrun2 in Hsecond |- *; [| discriminate Hsecond].
  simpl in Hsecond. injection Hsecond as -> ->.
  eexists _, _, _, w2. split; [done |]. split; [exact Hrun2 |].
  refine (proj1 (successive_conversions_differ 3 3 "/in/cat.png" "/in/cat.png"
                   AdjustTool.default_cfg AdjustTool.default_cfg sample_world
                   _ w2 _ _ _) Hrun1 Hrun2).
  apply (bool_decide_unpack _). by vm_compute.
Defined.

Lemma preview_shows_what_is_saved_witness :
  ∃ (dst : string) (base after : Image),
    PreviewApp.make_preview_base sample_world "/in/cat.png" = Some base
    ∧ PreviewTool.apply_adjustments_L base AdjustTool.default_cfg = Return after
    ∧ Image_save after dst (save_kw_for dst) sample_world
      = (Return (), <[dst := Return after]> sample_world).
Proof.
  destruct (safe_out_path_in_bound 4 sample_world AdjustTool.OUTPUT_DIR
              "cat.png" "_adj") as [dst Hdst]; [vm_compute; lia |].
  assert (PreviewTool.convert_fullres 4 "/in/cat.png" AdjustTool.default_cfg
            sample_world
          = Some ((true, dst),
                  <[dst := Return (PreviewTool.to_gray_L sample_gray)]> sample_world))
    as Hrun.
  { unfold PreviewTool.convert_fullres, PreviewTool.convert_fullres_body.
    change (Image_open sample_world "/in/cat.png") with (Return sample_gray).
    change (getattr_is_animated sample_gray) with false. cbv iota.
    change (PreviewTool.apply_adjustments_L (PreviewTool.to_gray_L sample_gray)
              AdjustTool.default_cfg)
      with (AdjustTool.apply_adjustments (PreviewTool.to_gray_L sample_gray)
              AdjustTool.default_cfg).
    rewrite (apply_adjustments_identity _ _ default_cfg_identity).
    change (OsPath.basename os_flavour "/in/cat.png") with "cat.png".
    unfold PreviewTool.safe_out_path.
    change PreviewTool.OUTPUT_DIR with AdjustTool.OUTPUT_DIR.
    by rewrite Hdst. }
  destruct (preview_shows_what_is_saved 4 "/in/cat.png" AdjustTool.default_cfg
              sample_world dst _ Hrun) as (base & after & Hbase & Hafter & Hsave).
  exists dst, base, after. split; [exact Hbase |]. split; [exact Hafter |].
  rewrite Hsave. simpl in Hbase. injection Hbase as <-.
  change (PreviewTool.apply_adjustments_L (PreviewTool.to_gray_L sample_gray)
            AdjustTool.default_cfg)
    with (AdjustTool.apply_adjustments (PreviewTool.to_gray_L sample_gray)
            AdjustTool.default_cfg) in Hafter.
  rewrite (apply_adjustments_identity _ _ default_cfg_identity) in Hafter.
  by injection Hafter as <-.
Defined.

Lemma conversion_keeps_directory_and_extension_witness :
  ∃ dst : string,
    fst <$> GrayscaleTool.convert_to_gray 3 "/in/cat.png" sample_world
    = Some (true, dst)
    ∧ (OsPath.splitext Posix dst).2 = (OsPath.splitext Posix "/in/cat.png").2.
Proof.
  pose proof first_conversion as Hfirst.
  destruct (GrayscaleTool.convert_to_gray 3 "/in/cat.png" sample_world)
    as [[[res dst] w'] |] eqn:Hrun; [| discriminate Hfirst].
  simpl in Hfirst. injection Hfirst as -> Hdst.
  exists dst. split; [done |].
  destruct (conversion_keeps_directory_and_extension 3 "/in/cat.png"
              AdjustTool.default_cfg sample_world dst w' eq_refl) as [Hgray _].
  by destruct (Hgray Hrun) as (_ & Hext & _ & _).
Defined.

Lemma conversion_names_output_witness :
  ∃ dst mid : string,
    fst <$> GrayscaleTool.convert_to_gray 3 "/in/cat.png" sample_world
    = Some (true, dst)
    ∧ OsPath.basename Posix dst = "cat" ++ mid ++ ".png".
Proof.
  pose proof first_conversion as Hfirst.
  destruct (GrayscaleTool.convert_to_gray 3 "/in/cat.png" sample_world)
    as [[[res dst] w'] |] eqn:Hrun; [| discriminate Hfirst].
  simpl in Hfirst. injection Hfirst as -> Hdst.
  destruct (conversion_names_output 3 "/in/cat.png"
              AdjustTool.default_cfg sample_world dst w' eq_refl) as [Hgray _].
  destruct (Hgray Hrun) as (mid & _ & Hname).
  by exists dst, mid.
Defined.

Lemma successful_conversion_saves_new_file_witness :
  ∃ dst : string,
    fst <$> GrayscaleTool.convert_to_gray 3 "/in/cat.png" sample_world
    = Some (true, dst)
    ∧ dst ∉ existing sample_world.
Proof.
  pose proof first_conversion as Hfirst.
  destruct (GrayscaleTool.convert_to_gray 3 "/in/cat.png" sample_world)
    as [[[res dst] w'] |] eqn:Hrun; [| discriminate Hfirst].
  simpl in Hfirst. injection Hfirst as -> Hdst.
  exists dst. split; [done |].
  destruct (successful_conversion_saves_new_file 3 "/in/cat.png"
              AdjustTool.default_cfg sample_world dst w') as [Hgray _].
  by destruct (Hgray Hrun) as [Hfresh _].
Defined.
